(** * CharacterModel: the singing avatar's phoneme timeline and pose blender

    A shallow embedding of [src/components/Sing/CharacterModel.vue].

    JavaScript numbers are IEEE-754 binary64 values, so [number] is Rocq's
    primitive [float]: [+ - * /], [<], [<=] and [===] are the primitive
    operations, and [NaN], the infinities and the signed zeros behave as in
    the source.  A JavaScript [Map] iterates in insertion order, so maps are
    association lists with [Map.prototype.set]'s update-in-place.  The
    module-level [let] variables of the component are one explicit [State]
    record threaded through [render]. *)

From Stdlib Require Import ZArith Lia Bool List String Floats.
From Stdlib Require Import Reals Lra.
Import ListNotations.

Set Warnings "-inexact-float".
Local Open Scope string_scope.
Local Open Scope list_scope.

(* ================================================================== *)
(** ** JavaScript numbers *)

Module JS.

Definition number := float.

(** [Number.isFinite]. *)
Definition Number_isFinite (x : number) : bool := PrimFloat.is_finite x.

(** Truthiness of a number: [0], [-0] and [NaN] are falsy. *)
Definition truthy (x : number) : bool :=
  negb (PrimFloat.is_nan x || PrimFloat.is_zero x).

(** [!x] for [x : number | undefined]. *)
Definition falsy_or_undefined (x : option number) : bool :=
  match x with Some v => negb (truthy v) | None => true end.

(** Truthiness of a string: only the empty string is falsy. *)
Definition truthy_string (s : string) : bool := negb (String.eqb s "").

(** [a > b] and [a >= b] are [b < a] and [b <= a]. *)
Definition gtb (a b : number) : bool := PrimFloat.ltb b a.
Definition geb (a b : number) : bool := PrimFloat.leb b a.

(** [Math.max] of two arguments: [NaN] if either is [NaN]; [+0] is larger
    than [-0]. *)
Definition Math_max (a b : number) : number :=
  if PrimFloat.is_nan a || PrimFloat.is_nan b then PrimFloat.nan
  else if PrimFloat.ltb a b then b
  else if PrimFloat.ltb b a then a
  else if PrimFloat.get_sign a then b else a.

(** [Math.min] of two arguments: [NaN] if either is [NaN]; [-0] is smaller
    than [+0]. *)
Definition Math_min (a b : number) : number :=
  if PrimFloat.is_nan a || PrimFloat.is_nan b then PrimFloat.nan
  else if PrimFloat.ltb a b then a
  else if PrimFloat.ltb b a then b
  else if PrimFloat.get_sign a then a else b.

(** [Math.PI], the binary64 value nearest to pi. *)
Definition Math_PI : number := 0x1.921fb54442d18p+1%float.

(** Splits a positive integer into an odd part and a power of two. *)
Fixpoint strip_zeros (p : positive) (k : Z) : positive * Z :=
  match p with
  | xO q => strip_zeros q (k + 1)
  | _ => (p, k)
  end.

(** The remainder operator [x % y] on numbers (C's [fmod]): the result has
    the sign of the dividend and is exact. *)
Definition rem (x y : number) : number :=
  match Prim2SF x, Prim2SF y with
  | S754_nan, _ | _, S754_nan => PrimFloat.nan
  | S754_infinity _, _ => PrimFloat.nan
  | _, S754_zero _ => PrimFloat.nan
  | S754_zero _, _ => x
  | _, S754_infinity _ => x
  | S754_finite sx mx ex, S754_finite _ my ey =>
      let e := Z.min ex ey in
      let r := ((Zpos mx * 2 ^ (ex - e)) mod (Zpos my * 2 ^ (ey - e)))%Z in
      match r with
      | Zpos p =>
          let '(m, k) := strip_zeros p 0 in
          SF2Prim (S754_finite sx m (e + k))
      | _ => if sx then PrimFloat.neg_zero else PrimFloat.zero
      end
  end.

(** The array index a number denotes as a property key, if any: a
    non-negative integer ([-0] denotes index 0). *)
Definition to_index (x : number) : option Z :=
  match Prim2SF x with
  | S754_zero _ => Some 0%Z
  | S754_finite false m e =>
      if (0 <=? e)%Z then Some (Zpos m * 2 ^ e)%Z
      else if (Zpos m mod 2 ^ (- e) =? 0)%Z then Some (Zpos m / 2 ^ (- e))%Z
      else None
  | _ => None
  end.

(** [arr[x]] for an array and a number: [undefined] ([None]) when [x] is not
    an index inside the array. *)
Definition array_get {A : Type} (arr : list A) (x : number) : option A :=
  match to_index x with
  | Some i => if (i <? Z.of_nat (List.length arr))%Z then nth_error arr (Z.to_nat i) else None
  | None => None
  end.

End JS.

(* ================================================================== *)
(** ** JavaScript [Map] with string keys, in insertion order *)

Module JSMap.
Section Ops.
Context {V : Type}.

Definition t := list (string * V).

Fixpoint get (k : string) (m : t) : option V :=
  match m with
  | [] => None
  | (k', v) :: r => if String.eqb k' k then Some v else get k r
  end.

Definition has (k : string) (m : t) : bool :=
  match get k m with Some _ => true | None => false end.

(** [set] overwrites the value of an existing key where it stands and
    appends a new key at the end. *)
Fixpoint set (k : string) (v : V) (m : t) : t :=
  match m with
  | [] => [(k, v)]
  | (k', v') :: r =>
      if String.eqb k' k then (k', v) :: r else (k', v') :: set k v r
  end.

Definition delete (k : string) (m : t) : t :=
  filter (fun kv => negb (String.eqb (fst kv) k)) m.

Definition keys (m : t) : list string := map fst m.
Definition values (m : t) : list V := map snd m.

End Ops.
Arguments t : clear implicits.
End JSMap.

Import JS.

(* ================================================================== *)
(** ** Data model *)

(** [FramePhoneme] of the synthesis query: a phoneme and its length in
    frames. *)
Record FramePhoneme := mkFramePhoneme {
  phoneme : string;
  phoneme_frameLength : number
}.

(** The source's [Section] type: one phoneme occurrence of a phrase. *)
Record PhonemeSection := mkSection {
  startFrame : number;
  frameLength : number;
  endFrame : number;
  startTick : number;
  endTick : number;
  expression : string;
  weight : number;
  phonemeString : string;
  noteNumber : number
}.

(** The source's [OneFrame] type: the cached timeline of one phrase. *)
Record OneFrame := mkOneFrame {
  frame_startFrame : number;
  frame_frameLength : number;
  frame_endFrame : number;
  frame_startTick : number;
  frame_endTick : number;
  sections : list PhonemeSection
}.

Record Tempo := mkTempo { position : number; bpm : number }.
Record Singer := mkSinger { engineId : string }.
Record Query := mkQuery { f0 : list number; phonemes : list FramePhoneme }.

(** A phrase of the store, as [render] reads it. *)
Record Phrase := mkPhrase {
  singer : option Singer;
  query : option Query;
  startTime : option number;
  tempos : list Tempo;
  tpqn : number
}.

Definition Vec3 : Type := number * number * number.

(** The module-level variables of the component that survive a frame. *)
Record State := mkState {
  frameMap : JSMap.t OneFrame;
  lastTpqn : number;
  lastEndTick : number;
  isEnd : bool;
  lastRot : option Vec3
}.

(** Their values when the component is loaded. *)
Definition initialState : State :=
  {| frameMap := []; lastTpqn := 480%float; lastEndTick := 0%float;
     isEnd := false; lastRot := None |}.

(** What one frame reads from outside: the rendering context that
    [initialize] sets up, the store, and the [playheadTicks] prop. *)
Record Frame := mkFrame {
  canvasWidth : option number;
  canvasHeight : option number;
  renderer : bool;
  scene : bool;
  camera : bool;
  clock : bool;
  phrases : JSMap.t Phrase;
  engineManifests : JSMap.t number;
  playheadTicks : number
}.

(** The two maps a frame ends with.  The rig and the socket get every
    weight as it is and every rotation through [_conv]. *)
Record Output := mkOutput {
  pose : JSMap.t Vec3;
  weights : JSMap.t number
}.

Inductive Exception :=
| Error (message : string)
| TypeError.

(** ** Constants of the component *)

Definition EXP_CLOSE : string := "__silent".

Definition vowelMap : JSMap.t string :=
  [("a", "aa"); ("i", "ih"); ("u", "ou"); ("e", "ee"); ("o", "oh")].

Module config.
Definition isZero : bool := false.
Definition dir_y : number := (-20)%float.
Definition isElbow : bool := false.
Module motion.
Module long.
Definition enable : bool := true.
Definition ratio : number := 1.5%float.
Definition expression : string := "Hauu".
End long.
Module high.
Definition enable : bool := false.
Definition tone : number := 70%float.
Definition ratio : number := 0.9%float.
End high.
Module last.
Definition expression : string := "Wink_L".
End last.
End motion.
End config.

(* ================================================================== *)
(** ** Functions that need no collaborator *)

Local Open Scope float_scope.

(** [_conv]: the Euler rotation as the rig takes it (VRM 0.0 flips two
    axes). *)
Definition _conv (x y z : number) : Vec3 :=
  if negb config.isZero then (x, y, z) else (- x, y, - z).

(** [searchSections]: the loop body, with [currentFrame] as accumulator. *)
Fixpoint searchSections_from (currentFrame : number) (phonemes : list FramePhoneme)
  : list PhonemeSection :=
  match phonemes with
  | [] => []
  | p :: rest =>
      {| startFrame := currentFrame;
         frameLength := phoneme_frameLength p;
         endFrame := currentFrame + phoneme_frameLength p;
         startTick := 0;
         endTick := 0;
         expression := "";
         weight := 1;
         phonemeString := phoneme p;
         noteNumber := 60 |}
      :: searchSections_from (currentFrame + phoneme_frameLength p) rest
  end.

Definition searchSections (phonemes : list FramePhoneme) : list PhonemeSection :=
  searchSections_from 0 phonemes.

(** [makeWeight]: the five vowel shapes, the target's one set to [weight]. *)
Definition makeWeight (target : string) (weight : number) : JSMap.t number :=
  let weights := [("aa", 0); ("ih", 0); ("ou", 0); ("ee", 0); ("oh", 0)] in
  if JSMap.has target weights then JSMap.set target weight weights else weights.

(** The [result] object of [searchSection]. *)
Definition fallbackSection : PhonemeSection :=
  {| startFrame := 0; frameLength := 0; endFrame := 0;
     startTick := 0; endTick := 0;
     expression := EXP_CLOSE; weight := 1;
     phonemeString := "pau"; noteNumber := 60 |}.

(** The inner loop of [searchSection] over one timeline's sections. *)
Fixpoint searchSection_sections (headTick : number) (ss : list PhonemeSection)
  : option PhonemeSection :=
  match ss with
  | [] => None
  | section :: rest =>
      if (headTick <? startTick section) || (endTick section <? headTick)
      then searchSection_sections headTick rest
      else if String.eqb (phonemeString section) "pau"
      then searchSection_sections headTick rest
      else Some section
  end.

(** The outer loop of [searchSection] over [frameMap.values()]. *)
Fixpoint searchSection_frames (headTick : number) (frames : list OneFrame)
  : option PhonemeSection :=
  match frames with
  | [] => None
  | oneframe :: rest =>
      if (headTick <? frame_startTick oneframe) || (frame_endTick oneframe <? headTick)
      then searchSection_frames headTick rest
      else match searchSection_sections headTick (sections oneframe) with
           | Some section => Some section
           | None => searchSection_frames headTick rest
           end
  end.

Definition searchSection (frameMap : JSMap.t OneFrame) (headTick : number)
  : PhonemeSection :=
  match searchSection_frames headTick (JSMap.values frameMap) with
  | Some section => section
  | None => fallbackSection
  end.

Definition degToRad (deg : number) : number := (deg * Math_PI) / 180.

(** The [switch] of [render] that resolves a section's mouth shape and
    weight; [next] is [sections[i + 1]]. *)
Definition consonantWeight : number := 0.7.

Definition resolveExpression (symbol : string) (next : option PhonemeSection)
  : string * number :=
  let case := String.eqb symbol in
  if case "m" || case "b" || case "p" || case "my" || case "by" || case "py"
     || case "N" || case "v" || case "pau"
  then (EXP_CLOSE, 1)
  else if case "w" then ("ou"%string, consonantWeight)
  else if case "a" then ("aa"%string, 1)
  else if case "i" then ("ih"%string, 1)
  else if case "u" then ("ou"%string, 1)
  else if case "e" then ("ee"%string, 1)
  else if case "o" then ("oh"%string, 1)
  else
    let nextExp :=
      match next with
      | Some n => JSMap.get (phonemeString n) vowelMap
      | None => None
      end in
    match nextExp with
    | Some exp => if truthy_string exp then (exp, consonantWeight)
                  else ("ou"%string, consonantWeight)
    | None => ("ou"%string, consonantWeight)
    end.

(* ================================================================== *)
(** ** [render] and the functions it calls *)

Record TwoPoint := mkTwoPoint { x0 : number; y0 : number; x1 : number; y1 : number }.

Definition set_lastTpqn (v : number) (st : State) : State :=
  {| frameMap := frameMap st; lastTpqn := v; lastEndTick := lastEndTick st;
     isEnd := isEnd st; lastRot := lastRot st |}.

Definition set_lastEndTick (v : number) (st : State) : State :=
  {| frameMap := frameMap st; lastTpqn := lastTpqn st; lastEndTick := v;
     isEnd := isEnd st; lastRot := lastRot st |}.

Definition set_frameMap (v : JSMap.t OneFrame) (st : State) : State :=
  {| frameMap := v; lastTpqn := lastTpqn st; lastEndTick := lastEndTick st;
     isEnd := isEnd st; lastRot := lastRot st |}.

Definition set_ending (e : bool) (r : option Vec3) (st : State) : State :=
  {| frameMap := frameMap st; lastTpqn := lastTpqn st; lastEndTick := lastEndTick st;
     isEnd := e; lastRot := r |}.

(** Lines 229-235: drop the timelines of phrases that are gone.  Deleting
    the key under the iterator leaves the rest of the iteration as it was,
    so the loop runs over the keys the map had on entry. *)
Definition pruneFrameMap (phrases : JSMap.t Phrase) (frameMap : JSMap.t OneFrame)
  : JSMap.t OneFrame * bool :=
  fold_left
    (fun (acc : JSMap.t OneFrame * bool) phraseKey =>
       if negb (JSMap.has phraseKey phrases)
       then (JSMap.delete phraseKey (fst acc), true)
       else acc)
    (JSMap.keys frameMap) (frameMap, false).

(** Lines 237-240: [lastEndTick] recomputed from the surviving timelines. *)
Definition recomputeLastEndTick (frameMap : JSMap.t OneFrame) : number :=
  fold_left (fun lastEndTick oneframe => Math_max lastEndTick (frame_endTick oneframe))
            (JSMap.values frameMap) 0.

(** Lines 229-241. *)
Definition pruneStep (phrases : JSMap.t Phrase) (st : State) : State :=
  let '(fm, isDelete) := pruneFrameMap phrases (frameMap st) in
  let st := set_frameMap fm st in
  if isDelete then set_lastEndTick (recomputeLastEndTick fm) st else st.

Section Collaborators.

(** [secondToTick] and [frequencyToNoteNumber] of [@/sing/domain], and
    [Math.sin] and [Math.cos], which ECMAScript leaves to the
    implementation.  [secondToTick] receives the one-element array
    [[phrase.tempos[0]]], whose element is [undefined] for a phrase without
    tempos; [frequencyToNoteNumber] receives [f0[startFrame]], which is
    [undefined] outside the array. *)
Variable secondToTick : number -> list (option Tempo) -> number -> number.
Variable frequencyToNoteNumber : option number -> number.
Variable Math_sin : number -> number.
Variable Math_cos : number -> number.

Definition twoPointEase (_this : TwoPoint) (t : number) : number :=
  y0 _this
  + (1 - Math_cos ((Math_PI * (t - x0 _this)) / (x1 _this - x0 _this)))
    * 0.5 * (y1 _this - y0 _this).

(** The table [sections] of the easing curve (named [easeSections] here:
    [render] has a local of the same name). *)
Definition easeSections : list (TwoPoint * (TwoPoint -> number -> number)) :=
  [ ({| x0 := 0;    x1 := 0.25; y0 := -1; y1 := -1 |}, fun _ _ => -1);
    ({| x0 := 0.25; x1 := 0.5;  y0 := -1; y1 := 1 |},  twoPointEase);
    ({| x0 := 0.5;  x1 := 0.75; y0 := 1;  y1 := 1 |},  fun _ _ => 1);
    ({| x0 := 0.75; x1 := 1;    y0 := 1;  y1 := -1 |}, twoPointEase) ].

Fixpoint ease_in (table : list (TwoPoint * (TwoPoint -> number -> number)))
  (t : number) : number :=
  match table with
  | [] => 1
  | (section, f) :: rest =>
      if (x0 section <=? t) && (t <? x1 section) then f section t
      else ease_in rest t
  end.

Definition ease (t : number) : number := ease_in easeSections t.

(** Lines 287-357: the loop that fills in every section of a new timeline
    and raises [lastEndTick]; the head of [rest] is [sections[i + 1]]. *)
Fixpoint resolveSections (startTime frameRate : number)
  (tempos : list (option Tempo)) (tpqn : number) (f0 : list number)
  (sections : list PhonemeSection) (lastEndTick : number)
  : list PhonemeSection * number :=
  match sections with
  | [] => ([], lastEndTick)
  | section :: rest =>
      let freq := array_get f0 (startFrame section) in
      let noteNumber' := frequencyToNoteNumber freq in
      let startTick' :=
        secondToTick (startTime + startFrame section / frameRate) tempos tpqn in
      let endTick' :=
        secondToTick (startTime + endFrame section / frameRate) tempos tpqn in
      let lastEndTick' :=
        if negb (String.eqb (phonemeString section) "pau")
        then Math_max lastEndTick endTick' else lastEndTick in
      let '(exp, weight') := resolveExpression (phonemeString section) (hd_error rest) in
      let section' :=
        {| startFrame := startFrame section;
           frameLength := frameLength section;
           endFrame := endFrame section;
           startTick := startTick';
           endTick := endTick';
           expression := exp;
           weight := weight';
           phonemeString := phonemeString section;
           noteNumber := noteNumber' |} in
      let '(rest', lastEndTick'') :=
        resolveSections startTime frameRate tempos tpqn f0 rest lastEndTick' in
      (section' :: rest', lastEndTick'')
  end.

(** Lines 245-361: the body of the loop over the store's phrases.  A phrase
    without singer, query or start time is skipped; [lastTpqn] is taken from
    every other phrase; a phrase that has a timeline is left alone; reading
    the frame rate of an unknown engine, or the first section of an empty
    phoneme list, throws. *)
Definition updatePhrase (engineManifests : JSMap.t number)
  (phraseKey : string) (phrase : Phrase) (st : State) : State * option Exception :=
  match singer phrase, query phrase, startTime phrase with
  | Some singer', Some query', Some startTime' =>
      if negb (truthy startTime') then (st, None) else
      let tempos' := [hd_error (tempos phrase)] in
      let tpqn' := tpqn phrase in
      let st := set_lastTpqn tpqn' st in
      match JSMap.get (engineId singer') engineManifests with
      | None => (st, Some TypeError)
      | Some frameRate =>
          match JSMap.get phraseKey (frameMap st) with
          | Some _ => (st, None)
          | None =>
              let sections0 := searchSections (phonemes query') in
              match hd_error sections0,
                    nth_error sections0 (List.length sections0 - 1) with
              | Some first, Some final =>
                  let startFrame' := startFrame first in
                  let endFrame' := endFrame final in
                  let startTick' := secondToTick startTime' tempos' tpqn' in
                  let endTick' :=
                    secondToTick (startTime' + (endFrame' - startFrame') / frameRate)
                                 tempos' tpqn' in
                  let '(sections', lastEndTick') :=
                    resolveSections startTime' frameRate tempos' tpqn' (f0 query')
                                    sections0 (lastEndTick st) in
                  let oneframe :=
                    {| frame_startFrame := startFrame';
                       frame_frameLength := 0;
                       frame_endFrame := endFrame';
                       frame_startTick := startTick';
                       frame_endTick := endTick';
                       sections := sections' |} in
                  (set_frameMap (JSMap.set phraseKey oneframe (frameMap st))
                                (set_lastEndTick lastEndTick' st), None)
              | _, _ => (st, Some TypeError)
              end
          end
      end
  | _, _, _ => (st, None)
  end.

(** Lines 244-362: the loop over the store's phrases, in their order. *)
Fixpoint updatePhrases (engineManifests : JSMap.t number)
  (phrases : list (string * Phrase)) (st : State) : State * option Exception :=
  match phrases with
  | [] => (st, None)
  | (phraseKey, phrase) :: rest =>
      match updatePhrase engineManifests phraseKey phrase st with
      | (st', None) => updatePhrases engineManifests rest st'
      | thrown => thrown
      end
  end.

(** Lines 371-387: the pose every frame starts from. *)
Definition basePose : JSMap.t Vec3 :=
  let pose : JSMap.t Vec3 :=
    [ ("leftUpperArm", (0, 0, - degToRad 50));
      ("leftHand", (0, - degToRad (10 + 3 * 0), degToRad (12 - 2)));
      ("leftIndexProximal", (0, 0, degToRad 8));
      ("leftMiddleProximal", (0, 0, degToRad 8));
      ("leftRingProximal", (0, 0, degToRad 4));
      ("rightUpperArm", (0, 0, degToRad 50));
      ("rightHand", (0, degToRad 10, - degToRad (12 - 2)));
      ("rightIndexProximal", (0, 0, - degToRad 8));
      ("rightMiddleProximal", (0, 0, - degToRad 8));
      ("rightRingProximal", (0, 0, - degToRad 4)) ]%string in
  let pose :=
    if config.isElbow
    then JSMap.set "leftLowerArm" (degToRad 30, - degToRad 140, 0)
           (JSMap.set "rightLowerArm" (degToRad 30, degToRad 140, 0) pose)
    else pose in
  JSMap.set "hips"
    (0, degToRad (config.dir_y + (if config.isZero then 180 else 0)), 0) pose.

Definition cosEase (tt : number) : number := (1 - Math_cos (tt * Math_PI)) * 0.5.

(** Lines 366-431: sway, ending decay and start-up, giving the chest and
    head rotations and the next ending sub-state. *)
Definition poseStep (playheadTicks : number) (st : State) : State * JSMap.t Vec3 :=
  let mod_ :=
    if Number_isFinite playheadTicks
    then rem playheadTicks (lastTpqn st * 4) / (lastTpqn st * 4)
    else 0 in
  let pose := basePose in
  let zrot := degToRad (1.8 * ease mod_) in
  let xrot := degToRad (3 * (1 - Math_sin (degToRad (180 * rem (mod_ * 4) 1)))) in
  let pastTick := playheadTicks - lastEndTick st in
  let '(isEnd', lastRot', xrot, zrot) :=
    if gtb pastTick 0 then
      if negb (isEnd st) then
        let lastRot' :=
          match lastRot st with Some r => r | None => (xrot, 0, zrot) end in
        let t := Math_min 1 (pastTick / lastTpqn st) in
        let zrot := snd lastRot' * (1 - cosEase t) in
        let xrot := fst (fst lastRot') * (1 - cosEase t) in
        if t =? 1 then (true, None, xrot, zrot)
        else (false, Some lastRot', xrot, zrot)
      else (isEnd st, lastRot st, xrot, zrot)
    else
      let t := playheadTicks / lastTpqn st in
      if t <? 1 then
        let rot := twoPointEase {| x0 := 0; y0 := 0; x1 := 1; y1 := -1 |} t in
        (false, None, xrot, degToRad (1.8 * rot))
      else (false, None, xrot, zrot) in
  let '(xrot, zrot) := if isEnd' then (0, 0) else (xrot, zrot) in
  let pose := JSMap.set "chest" (0, 0, zrot) pose in
  let pose := JSMap.set "head" (xrot, 0, zrot * 4) pose in
  (set_ending isEnd' lastRot' st, pose).

(** Lines 434-480: the mouth shape of the active section, the long-note and
    high-note reaction, the closing gesture and the neutral face.  [st] is
    the state [poseStep] left. *)
Definition expressionStep (playheadTicks : number) (st : State) (pose : JSMap.t Vec3)
  : Output :=
  let pastTick := playheadTicks - lastEndTick st in
  let section := searchSection (frameMap st) playheadTicks in
  let lip := expression section in
  let weights := makeWeight (if isEnd st then EXP_CLOSE else lip) (weight section) in
  let len := endTick section - startTick section in
  let isHauu := false in
  let isHauu :=
    if config.motion.high.enable then
      if geb len (lastTpqn st * config.motion.high.ratio)
         && geb (noteNumber section) config.motion.high.tone
         && negb (String.eqb lip EXP_CLOSE)
      then true else isHauu
    else isHauu in
  let isHauu :=
    if config.motion.long.enable then
      if gtb len (lastTpqn st * config.motion.long.ratio)
         && negb (String.eqb lip EXP_CLOSE)
      then true else isHauu
    else isHauu in
  let hauuWeight := if isHauu then 1 else 0 in
  let weights := JSMap.set config.motion.long.expression hauuWeight weights in
  let endAppend := Math_min 1 ((pastTick - lastTpqn st * 3) / 24) in
  let weights := JSMap.set config.motion.last.expression endAppend weights in
  let pose :=
    if gtb endAppend 0
    then JSMap.set "head" (0, 0, degToRad (-5 * endAppend)) pose
    else pose in
  let isNeutral := negb (existsb (fun value => gtb value 0) (JSMap.values weights)) in
  let weights := if isNeutral then JSMap.set "neutral" 1 weights else weights in
  {| pose := pose; weights := weights |}.

(** [render]: one displayed frame.  The state it returns is the one the
    component holds afterwards, also when it throws. *)
Definition render (frame : Frame) (st : State) : State * (Exception + Output) :=
  if falsy_or_undefined (canvasWidth frame)
  then (st, inl (Error "canvasWidth is undefined."))
  else if falsy_or_undefined (canvasHeight frame)
  then (st, inl (Error "canvasHeight is undefined."))
  else if negb (renderer frame) then (st, inl (Error "renderer is undefined."))
  else if negb (scene frame) then (st, inl (Error "scene is undefined."))
  else if negb (camera frame) then (st, inl (Error "camera is undefined."))
  else if negb (clock frame) then (st, inl (Error "clock is undefined."))
  else
    let st := pruneStep (phrases frame) st in
    match updatePhrases (engineManifests frame) (phrases frame) st with
    | (st, Some thrown) => (st, inl thrown)
    | (st, None) =>
        let '(st, pose) := poseStep (playheadTicks frame) st in
        (st, inr (expressionStep (playheadTicks frame) st pose))
    end.

End Collaborators.

(** [cleanUp], on the variables [render] reads: [frameMap.clear()].  Its
    other statements cancel the animation frame request, clear the scene,
    dispose the renderer, disconnect the resize observer and unset
    [isInstantiated]; none of them assigns [lastTpqn], [lastEndTick], [isEnd]
    or [lastRot]. *)
Definition cleanUp (st : State) : State := set_frameMap [] st.

(* ================================================================== *)
(** ** Concrete collaborators and data, for evaluating the model *)

Module Sample.

(** Modelled from the spec: [secondToTick] lives in [@/sing/domain], which
    is not part of the component; section 6 describes it as a pure, monotonic
    conversion from seconds to ticks.  This instance converts at the constant
    tempo of the one tempo it is handed. *)
Definition secondToTick (seconds : number) (tempos : list (option Tempo)) (tpqn : number)
  : number :=
  match tempos with
  | Some tempo :: _ => position tempo + seconds * (bpm tempo / 60) * tpqn
  | _ => nan
  end.

(** Modelled from the spec: [frequencyToNoteNumber] lives in [@/sing/domain]
    too (section 6: used only for the high-note gate, which [config]
    disables).  This instance answers the note the source gives a fresh
    section, and [NaN] for [undefined]. *)
Definition frequencyToNoteNumber (freq : option number) : number :=
  match freq with Some _ => 60 | None => nan end.

(** Alternating series in Horner form: [1 - x2/(a (a+1)) (1 - x2/((a+2) (a+3)) ...)]. *)
Fixpoint series (n : nat) (x2 a : number) : number :=
  match n with
  | O => 1
  | S n' => 1 - x2 / (a * (a + 1)) * series n' x2 (a + 2)
  end.

(** An implementation-approximated sine and cosine, accurate on [-pi, pi];
    both propagate [NaN]. *)
Definition Math_sin (x : number) : number := x * series 14 (x * x) 2.
Definition Math_cos (x : number) : number := series 14 (x * x) 1.

Definition render := render secondToTick frequencyToNoteNumber Math_sin Math_cos.

(** A frame drawn with the canvas set up, an empty store and the playhead at
    [ticks]. *)
Definition emptyFrame (ticks : number) : Frame :=
  {| canvasWidth := Some 640; canvasHeight := Some 480;
     renderer := true; scene := true; camera := true; clock := true;
     phrases := []; engineManifests := [("engine", 93.75)];
     playheadTicks := ticks |}.

(** A phrase at 120 bpm, 480 ticks per quarter note, starting at second 1. *)
Definition phraseOf (phonemes : list FramePhoneme) : Phrase :=
  {| singer := Some {| engineId := "engine" |};
     query := Some {| f0 := []; phonemes := phonemes |};
     startTime := Some 1;
     tempos := [ {| position := 0; bpm := 120 |} ];
     tpqn := 480 |}.

Definition ph (symbol : string) (frames : number) : FramePhoneme :=
  {| phoneme := symbol; phoneme_frameLength := frames |}.

(** A frame whose store holds the phrases [phrases]. *)
Definition frameOf (phrases : JSMap.t Phrase) (ticks : number) : Frame :=
  {| canvasWidth := Some 640; canvasHeight := Some 480;
     renderer := true; scene := true; camera := true; clock := true;
     phrases := phrases; engineManifests := [("engine", 93.75)];
     playheadTicks := ticks |}.

(** A phrase that ends in silence, and a later snapshot under the same key
    with other phonemes. *)
Definition voicedThenSilent : Phrase := phraseOf [ph "a" 20; ph "pau" 10].
Definition laterSnapshot : Phrase := phraseOf [ph "o" 5; ph "k" 5].

(** The state after a first frame that saw [voicedThenSilent] as "p1", and
    the timeline that frame cached. *)
Definition cachedState : State :=
  fst (render (frameOf [("p1", voicedThenSilent)] 0) initialState).

Definition cachedTimeline : OneFrame :=
  match JSMap.get "p1" (frameMap cachedState) with
  | Some oneframe => oneframe
  | None => {| frame_startFrame := 0; frame_frameLength := 0; frame_endFrame := 0;
               frame_startTick := 0; frame_endTick := 0; sections := [] |}
  end.

(** The output of a frame, when it completed. *)
Definition outputOf (r : State * (Exception + Output)) : Output :=
  match snd r with
  | inr out => out
  | inl _ => {| pose := []; weights := [] |}
  end.

(** A store with a phrase that starts at second 0, the phrase "p1", and a
    phrase at 960 ticks per quarter note starting at second 3. *)
Definition startsAtZero : Phrase :=
  {| singer := Some {| engineId := "engine" |};
     query := Some {| f0 := []; phonemes := [ph "a" 20] |};
     startTime := Some 0;
     tempos := [ {| position := 0; bpm := 120 |} ];
     tpqn := 240 |}.

Definition secondVerse : Phrase :=
  {| singer := Some {| engineId := "engine" |};
     query := Some {| f0 := []; phonemes := [ph "pau" 5; ph "k" 5; ph "o" 40] |};
     startTime := Some 3;
     tempos := [ {| position := 0; bpm := 120 |} ];
     tpqn := 960 |}.

Definition store : JSMap.t Phrase :=
  [("p0", startsAtZero); ("p1", voicedThenSilent); ("p2", secondVerse)].

(** A first frame over [store] with the playhead inside the "o" of "p2",
    and what it leaves. *)
Definition storeFrame : Frame := frameOf store 6000.
Definition storeState : State := fst (render storeFrame initialState).
Definition storeOutput : Output := outputOf (render storeFrame initialState).

(** A frame 480 ticks past an empty component's [lastEndTick], and what it
    leaves. *)
Definition endedState : State := fst (render (emptyFrame 480) initialState).
Definition endedOutput : Output := outputOf (render (emptyFrame 480) initialState).

(** A frame 240 ticks past an empty component's [lastEndTick]: the decay
    has captured the sway rotation. *)
Definition decayingState : State := fst (render (emptyFrame 240) initialState).
Definition capturedRot : Vec3 :=
  match lastRot decayingState with Some r => r | None => (0, 0, 0) end.

End Sample.

(* ================================================================== *)
(** ** Vocabulary of the properties *)

(** *** The Expression Mapper *)

(** The rules of section 4.2 as the specification words them, to compare
    with the [switch] of [render]: [next] is the symbol of the following
    segment, if there is one. *)
Definition spec_closureClass : list string :=
  ["m"; "b"; "p"; "my"; "by"; "py"; "N"; "v"; "pau"]%string.

Definition spec_vowelShape (symbol : string) : option string :=
  if String.eqb symbol "a" then Some "aa"%string
  else if String.eqb symbol "i" then Some "ih"%string
  else if String.eqb symbol "u" then Some "ou"%string
  else if String.eqb symbol "e" then Some "ee"%string
  else if String.eqb symbol "o" then Some "oh"%string
  else None.

Definition spec_expressionMapper (symbol : string) (next : option string)
  : string * number :=
  if existsb (String.eqb symbol) spec_closureClass then (EXP_CLOSE, 1)
  else if String.eqb symbol "w" then ("ou"%string, 0.7)
  else match spec_vowelShape symbol with
       | Some shape => (shape, 1)
       | None =>
           match next with
           | Some n =>
               match spec_vowelShape n with
               | Some shape => (shape, 0.7)
               | None => ("ou"%string, 0.7)
               end
           | None => ("ou"%string, 0.7)
           end
       end.

(** The mapper along a phoneme sequence, each symbol with its successor. *)
Fixpoint spec_expressions (symbols : list string) : list (string * number) :=
  match symbols with
  | [] => []
  | symbol :: rest => spec_expressionMapper symbol (hd_error rest) :: spec_expressions rest
  end.

(** The mouth shape and weight [render] stores for each phoneme of a new
    timeline. *)
Definition cachedExpressions
  (secondToTick : number -> list (option Tempo) -> number -> number)
  (frequencyToNoteNumber : option number -> number)
  (startTime frameRate : number)
  (tempos : list (option Tempo)) (tpqn : number) (f0 : list number)
  (lastEndTick : number) (phonemes : list FramePhoneme) : list (string * number) :=
  map (fun s => (expression s, weight s))
      (fst (resolveSections secondToTick frequencyToNoteNumber
              startTime frameRate tempos tpqn f0 (searchSections phonemes) lastEndTick)).

(** *** The mouth-weight builder *)

Definition vowelShapes : list string := ["aa"; "ih"; "ou"; "ee"; "oh"]%string.

(** *** The Playhead Lookup *)

(** The range test of [searchSection]: a range is passed over when the tick
    lies before its start or after its end. *)
Definition covers (start stop headTick : number) : bool :=
  negb ((headTick <? start) || (stop <? headTick)).

(** The sections of a timeline the lookup may answer: those that cover the
    tick and are not silence. *)
Definition activeIn (headTick : number) (section : PhonemeSection) : bool :=
  covers (startTick section) (endTick section) headTick
  && negb (String.eqb (phonemeString section) "pau").

(** All candidates of the cache, in iteration order: timeline by timeline,
    and only timelines that cover the tick themselves. *)
Definition candidates (frameMap : JSMap.t OneFrame) (headTick : number)
  : list PhonemeSection :=
  flat_map
    (fun oneframe =>
       if covers (frame_startTick oneframe) (frame_endTick oneframe) headTick
       then filter (activeIn headTick) (sections oneframe)
       else [])
    (JSMap.values frameMap).

(** Every cached timeline's tick range encloses the ranges of its
    sections. *)
Definition enclosesSections (frameMap : JSMap.t OneFrame) : bool :=
  forallb (fun oneframe =>
             forallb (fun s => (frame_startTick oneframe <=? startTick s)
                               && (endTick s <=? frame_endTick oneframe))
                     (sections oneframe))
          (JSMap.values frameMap).

(** *** The Phrase Timeline Cache *)

(** End ticks are not negative (ticks count from the start of the song). *)
Definition ticksNonNegative (frameMap : JSMap.t OneFrame) : bool :=
  forallb (fun oneframe => 0 <=? frame_endTick oneframe) (JSMap.values frameMap).

(** The end ticks of a timeline's sections that are not silence. *)
Definition voicedEndTicks (oneframe : OneFrame) : list number :=
  map endTick
      (filter (fun s => negb (String.eqb (phonemeString s) "pau")) (sections oneframe)).

(** What [updatePhrase] does to the cache: nothing, or one new timeline
    under a key that had none. *)
Inductive CacheChange (k : string) (st st' : State) : Prop :=
| Untouched :
    frameMap st' = frameMap st -> lastEndTick st' = lastEndTick st ->
    CacheChange k st st'
| Inserted (oneframe : OneFrame) :
    JSMap.get k (frameMap st) = None ->
    frameMap st' = JSMap.set k oneframe (frameMap st) ->
    lastEndTick st' = fold_left Math_max (voicedEndTicks oneframe) (lastEndTick st) ->
    (forall s, In s (sections oneframe) -> weight s = 1 \/ weight s = consonantWeight) ->
    CacheChange k st st'.

(** *** The Pose Blender *)

(** Every cached section carries a weight between 0 and 1. *)
Definition weightsInRange (frameMap : JSMap.t OneFrame) : bool :=
  forallb (fun oneframe =>
             forallb (fun s => (0 <=? weight s) && (weight s <=? 1)) (sections oneframe))
          (JSMap.values frameMap).

(** The closing-gesture weight of a frame. *)
Definition endAppendOf (playheadTicks : number) (st : State) : number :=
  Math_min 1 ((playheadTicks - lastEndTick st - lastTpqn st * 3) / 24).

Definition expressionKeys : list string :=
  ["aa"; "ih"; "ou"; "ee"; "oh"; "Hauu"; "neutral"]%string.

(** The frame [frame] with the playhead moved to [ticks]. *)
Definition withPlayhead (ticks : number) (frame : Frame) : Frame :=
  {| canvasWidth := canvasWidth frame; canvasHeight := canvasHeight frame;
     renderer := renderer frame; scene := scene frame; camera := camera frame;
     clock := clock frame; phrases := phrases frame;
     engineManifests := engineManifests frame; playheadTicks := ticks |}.

(** Lines 398-403 read over the real numbers: [Math.cos] and [Math.PI] are
    the cosine and pi, and the arithmetic is exact.  [decay rot pastTick
    lastTpqn] is the rotation the decay gives a captured component [rot]
    ([lastRot[0]] for the head, [lastRot[2]] for the chest). *)
Module RealReading.

Local Open Scope R_scope.

Definition cosEase (tt : R) : R := (1 - cos (tt * PI)) * (1 / 2).


End RealReading.

(** *** The frame driver *)

(** The six checks [render] starts with. *)
Definition contextReady (frame : Frame) : bool :=
  negb (falsy_or_undefined (canvasWidth frame))
  && negb (falsy_or_undefined (canvasHeight frame))
  && renderer frame && scene frame && camera frame && clock frame.

(** The test of line 245, negated: the phrase has a singer, a query and a
    start time that is neither 0 nor [NaN]. *)
Definition isReady (phrase : Phrase) : bool :=
  match singer phrase, query phrase, startTime phrase with
  | Some _, Some _, Some t => truthy t
  | _, _, _ => false
  end.

(** The frame rate the store has for the phrase's engine, if any. *)
Definition frameRateOf (engineManifests : JSMap.t number) (phrase : Phrase)
  : option number :=
  match singer phrase with
  | Some singer' => JSMap.get (engineId singer') engineManifests
  | None => None
  end.

(** The phonemes of the phrase's query. *)
Definition phonemesOf (phrase : Phrase) : list FramePhoneme :=
  match query phrase with
  | Some query' => phonemes query'
  | None => []
  end.

(** The bones of the pose map, in the order [render] sets them. *)
Definition boneNames : list string :=
  ["leftUpperArm"; "leftHand"; "leftIndexProximal"; "leftMiddleProximal";
   "leftRingProximal"; "rightUpperArm"; "rightHand"; "rightIndexProximal";
   "rightMiddleProximal"; "rightRingProximal"; "hips"; "chest"; "head"]%string.

(** A cached section [s] against the section [o] that [searchSections] made
    for it: same frames and symbol, and the ticks of its two frame bounds. *)
Definition resolvedFrom
  (secondToTick : number -> list (option Tempo) -> number -> number)
  (startTime frameRate : number) (tempos : list (option Tempo)) (tpqn : number)
  (o s : PhonemeSection) : Prop :=
  startFrame s = startFrame o
  /\ frameLength s = frameLength o
  /\ endFrame s = endFrame o
  /\ phonemeString s = phonemeString o
  /\ startTick s = secondToTick (startTime + startFrame o / frameRate) tempos tpqn
  /\ endTick s = secondToTick (startTime + endFrame o / frameRate) tempos tpqn.

(** The weight map before the neutral face is considered. *)
Definition weightsBeforeNeutral (playheadTicks : number) (st : State) : JSMap.t number :=
  let section := searchSection (frameMap st) playheadTicks in
  let lip := expression section in
  JSMap.set config.motion.last.expression (endAppendOf playheadTicks st)
    (JSMap.set config.motion.long.expression
       (if gtb (endTick section - startTick section)
               (lastTpqn st * config.motion.long.ratio)
           && negb (String.eqb lip EXP_CLOSE)
        then 1 else 0)
       (makeWeight (if isEnd st then EXP_CLOSE else lip) (weight section))).

(** *** The order of numbers *)

(** [x <= y] on the specification's view of binary64 values. *)
Definition SFle (x y : spec_float) : Prop :=
  SFcompare x y = Some Lt \/ SFcompare x y = Some Eq.

(** *** Proof steps that recur *)

Ltac fold_pos_compare :=
  repeat match goal with
  | |- context [Pos.compare_cont Eq ?a ?b] =>
      change (Pos.compare_cont Eq a b) with (Pos.compare a b)
  | H : context [Pos.compare_cont Eq ?a ?b] |- _ =>
      change (Pos.compare_cont Eq a b) with (Pos.compare a b) in H
  end.

Ltac case_eqb s t :=
  let E := fresh "E" in
  destruct (String.eqb s t) eqn:E;
  [apply String.eqb_eq in E | apply String.eqb_neq in E].


(* ================================================================== *)
(** ** The order of numbers *)

Module NumberOrder.

Lemma SFcompare_swap (x y : spec_float) :
  SFcompare y x = option_map CompOpp (SFcompare x y).
Proof.
  destruct x as [[]|[]| |[] mx ex], y as [[]|[]| |[] my ey]; simpl; try reflexivity;
    rewrite (Z.compare_antisym ex ey); destruct (ex ?= ey)%Z; simpl; try reflexivity;
    fold_pos_compare;
    rewrite (Pos.compare_antisym mx my); destruct (mx ?= my)%positive; reflexivity.
Qed.

Lemma SFcompare_refl (x : spec_float) :
  x <> S754_nan -> SFcompare x x = Some Eq.
Proof.
  destruct x as [[]|[]| |[] m e]; simpl; intros H; try reflexivity; try congruence;
    rewrite Z.compare_refl; fold_pos_compare; rewrite Pos.compare_refl; reflexivity.
Qed.

Lemma SFcompare_None (x y : spec_float) :
  SFcompare x y = None -> x = S754_nan \/ y = S754_nan.
Proof.
  destruct x as [[]|[]| |[] mx ex], y as [[]|[]| |[] my ey]; simpl; intros H;
    auto; discriminate.
Qed.

Lemma SFle_trans (x y z : spec_float) : SFle x y -> SFle y z -> SFle x z.
Proof.
  unfold SFle.
  destruct x as [[]|[]| |[] mx ex], y as [[]|[]| |[] my ey], z as [[]|[]| |[] mz ez];
    simpl; try (intuition congruence); fold_pos_compare;
    destruct (Z.compare_spec ex ey), (Z.compare_spec ey ez), (Z.compare_spec ex ez);
    try lia; subst; try (intuition congruence);
    destruct (Pos.compare_spec mx my), (Pos.compare_spec my mz), (Pos.compare_spec mx mz);
    try lia; subst; simpl; try (intuition congruence).
Qed.

Lemma leb_SFle (x y : number) :
  (x <=? y) = true <-> SFle (Prim2SF x) (Prim2SF y).
Proof.
  rewrite leb_spec. unfold SFleb, SFle.
  destruct (SFcompare (Prim2SF x) (Prim2SF y)) as [[]|]; intuition congruence.
Qed.

Lemma is_nan_false (x : number) :
  is_nan x = false <-> Prim2SF x <> S754_nan.
Proof.
  unfold is_nan. rewrite eqb_spec. unfold SFeqb. split.
  - intros H E. rewrite E in H. discriminate.
  - intros H. rewrite (SFcompare_refl _ H). reflexivity.
Qed.

Lemma leb_refl (x : number) : is_nan x = false -> (x <=? x) = true.
Proof.
  intros H. apply leb_SFle. right. apply SFcompare_refl. now apply is_nan_false.
Qed.

Lemma leb_trans (x y z : number) :
  (x <=? y) = true -> (y <=? z) = true -> (x <=? z) = true.
Proof.
  rewrite !leb_SFle. apply SFle_trans.
Qed.

Lemma ltb_leb (x y : number) : (x <? y) = true -> (x <=? y) = true.
Proof.
  rewrite ltb_spec, leb_spec. unfold SFltb, SFleb.
  destruct (SFcompare (Prim2SF x) (Prim2SF y)) as [[]|]; congruence.
Qed.

Lemma leb_not_nan (x y : number) :
  (x <=? y) = true -> is_nan x = false /\ is_nan y = false.
Proof.
  rewrite leb_spec. unfold SFleb. intros H.
  rewrite !is_nan_false.
  split; intros E; rewrite E in H; simpl in H; try discriminate.
  destruct (Prim2SF x); discriminate.
Qed.

(** Two numbers that are not [NaN] are comparable. *)
Lemma not_ltb_leb (x y : number) :
  is_nan x = false -> is_nan y = false -> (x <? y) = false -> (y <=? x) = true.
Proof.
  rewrite !is_nan_false, ltb_spec, leb_spec. unfold SFltb, SFleb.
  intros Hx Hy. rewrite (SFcompare_swap (Prim2SF x) (Prim2SF y)).
  destruct (SFcompare (Prim2SF x) (Prim2SF y)) as [[]|] eqn:E; simpl; try congruence.
  destruct (SFcompare_None _ _ E); contradiction.
Qed.

Lemma leb_not_ltb (x y : number) : (x <=? y) = true -> (y <? x) = false.
Proof.
  rewrite leb_spec, ltb_spec. unfold SFleb, SFltb.
  rewrite (SFcompare_swap (Prim2SF x) (Prim2SF y)).
  destruct (SFcompare (Prim2SF x) (Prim2SF y)) as [[]|]; simpl; congruence.
Qed.

Lemma leb_eqb (x y : number) :
  (x <=? y) = true -> (y <=? x) = true -> (x =? y) = true.
Proof.
  rewrite !leb_spec, eqb_spec. unfold SFleb, SFeqb.
  rewrite (SFcompare_swap (Prim2SF x) (Prim2SF y)).
  destruct (SFcompare (Prim2SF x) (Prim2SF y)) as [[]|]; simpl; congruence.
Qed.

(** [Math.max] of two numbers that are not [NaN] is one of them and bounds
    both. *)
Lemma Math_max_spec (a b : number) :
  is_nan a = false -> is_nan b = false ->
  (Math_max a b = a \/ Math_max a b = b)
  /\ (a <=? Math_max a b) = true /\ (b <=? Math_max a b) = true.
Proof.
  intros Ha Hb. unfold Math_max. rewrite Ha, Hb. simpl.
  destruct (a <? b) eqn:Hab.
  - repeat split; auto using ltb_leb, leb_refl.
  - destruct (b <? a) eqn:Hba.
    + repeat split; auto using ltb_leb, leb_refl.
    + destruct (get_sign a); repeat split; auto using not_ltb_leb, leb_refl.
Qed.

Lemma Math_max_not_nan (a b : number) :
  is_nan a = false -> is_nan b = false -> is_nan (Math_max a b) = false.
Proof.
  intros Ha Hb. destruct (Math_max_spec a b Ha Hb) as [[E|E] _]; rewrite E; assumption.
Qed.

(** [Math.min(1, x)] is never above 1, whatever [x] is. *)
Lemma Math_min_1_not_above (x : number) : (1 <? Math_min 1 x) = false.
Proof.
  unfold Math_min.
  destruct (is_nan 1 || is_nan x); [reflexivity|].
  destruct (1 <? x) eqn:H1; [reflexivity|].
  destruct (x <? 1); [assumption|].
  change (get_sign 1) with false. cbv iota. assumption.
Qed.

(** [NaN] spreads through subtraction, division and [Math.min]. *)
Lemma sub_nan_l (x : number) : nan - x = nan.
Proof. apply Prim2SF_inj. rewrite sub_spec. reflexivity. Qed.

Lemma div_nan_l (x : number) : nan / x = nan.
Proof. apply Prim2SF_inj. rewrite div_spec. reflexivity. Qed.

Lemma Math_min_nan_r (x : number) : Math_min x nan = nan.
Proof. unfold Math_min. rewrite orb_true_r. reflexivity. Qed.

End NumberOrder.

(* ================================================================== *)
(** ** The Phoneme Segmenter *)

Lemma searchSections_from_length (phonemes : list FramePhoneme) (c : number) :
  List.length (searchSections_from c phonemes) = List.length phonemes.
Proof.
  revert c. induction phonemes as [|p rest IH]; intros c; simpl; [reflexivity|].
  now rewrite IH.
Qed.

Lemma searchSections_from_hd (phonemes : list FramePhoneme) (c : number) s :
  hd_error (searchSections_from c phonemes) = Some s -> startFrame s = c.
Proof.
  destruct phonemes as [|p rest]; simpl; intros H; [discriminate|].
  injection H as <-. reflexivity.
Qed.

Lemma searchSections_from_nth (phonemes : list FramePhoneme) :
  forall c i s p,
    nth_error (searchSections_from c phonemes) i = Some s ->
    nth_error phonemes i = Some p ->
    frameLength s = phoneme_frameLength p
    /\ phonemeString s = phoneme p
    /\ endFrame s = startFrame s + frameLength s.
Proof.
  induction phonemes as [|q rest IH]; intros c [|i] s p Hs Hp; simpl in *;
    try discriminate.
  - injection Hs as <-. injection Hp as <-. simpl. auto.
  - eapply IH; eassumption.
Qed.

Lemma searchSections_from_next (phonemes : list FramePhoneme) :
  forall c i s s',
    nth_error (searchSections_from c phonemes) i = Some s ->
    nth_error (searchSections_from c phonemes) (S i) = Some s' ->
    endFrame s = startFrame s'.
Proof.
  induction phonemes as [|q rest IH]; intros c [|i] s s' Hs Hs'; simpl in *;
    try discriminate.
  - injection Hs as <-. simpl.
    symmetry. apply (searchSections_from_hd rest). destruct (searchSections_from _ rest);
      simpl in *; [discriminate|assumption].
  - eapply IH; eassumption.
Qed.

(** C6: [searchSections] yields one section per phoneme; the first starts
    at frame 0; every section carries its phoneme's symbol and frame length
    (whatever it is, zero included) and ends at its start plus that length;
    and every section ends at the frame where the next one starts. *)
Theorem searchSections_running_sum (phonemes : list FramePhoneme) :
  List.length (searchSections phonemes) = List.length phonemes
  /\ (forall s, hd_error (searchSections phonemes) = Some s -> startFrame s = 0)
  /\ (forall i s p,
        nth_error (searchSections phonemes) i = Some s ->
        nth_error phonemes i = Some p ->
        frameLength s = phoneme_frameLength p
        /\ phonemeString s = phoneme p
        /\ endFrame s = startFrame s + frameLength s)
  /\ (forall i s s',
        nth_error (searchSections phonemes) i = Some s ->
        nth_error (searchSections phonemes) (S i) = Some s' ->
        endFrame s = startFrame s').
Proof.
  unfold searchSections. repeat split.
  - apply searchSections_from_length.
  - apply searchSections_from_hd.
  - eapply searchSections_from_nth; eassumption.
  - eapply searchSections_from_nth; eassumption.
  - eapply searchSections_from_nth; eassumption.
  - apply searchSections_from_next.
Qed.

(* ================================================================== *)
(** ** The mouth-weight builder *)



(** C10: [makeWeight] always answers a map with exactly the keys aa, ih, ou,
    ee, oh, in that order.  A target among them gets [weight] and the others
    stay 0; any other target, the silence tag included, leaves all five at 0
    and adds no key of its own. *)
Theorem makeWeight_five_vowels (target : string) (weight : number) :
  JSMap.keys (makeWeight target weight) = vowelShapes
  /\ (In target vowelShapes ->
      JSMap.get target (makeWeight target weight) = Some weight
      /\ forall k, In k vowelShapes -> k <> target ->
                   JSMap.get k (makeWeight target weight) = Some 0)
  /\ (~ In target vowelShapes ->
      JSMap.values (makeWeight target weight) = [0; 0; 0; 0; 0])
  /\ JSMap.values (makeWeight EXP_CLOSE weight) = [0; 0; 0; 0; 0]
  /\ JSMap.has EXP_CLOSE (makeWeight target weight) = false.
Proof.
  unfold makeWeight, JSMap.has, vowelShapes. cbn -[String.eqb].
  case_eqb "aa"%string target; [subst; cbn|];
  [|case_eqb "ih"%string target; [subst; cbn|];
  [|case_eqb "ou"%string target; [subst; cbn|];
  [|case_eqb "ee"%string target; [subst; cbn|];
  [|case_eqb "oh"%string target; [subst; cbn|]]]]];
  (split; [reflexivity|]);
  (split; [intros H; split; [try reflexivity; intuition congruence|];
           intros k Hk Hne;
           decompose [or] Hk; subst; try contradiction; try reflexivity; intuition congruence|]);
  (split; [intros H; try reflexivity; exfalso; apply H; auto 6|]);
  split; reflexivity.
Qed.

(* ================================================================== *)
(** ** The Expression Mapper *)


Lemma vowelMap_get (symbol : string) :
  JSMap.get symbol vowelMap = spec_vowelShape symbol.
Proof.
  unfold vowelMap, spec_vowelShape. cbn -[String.eqb].
  rewrite !(String.eqb_sym symbol). reflexivity.
Qed.

Lemma spec_vowelShape_truthy (symbol shape : string) :
  spec_vowelShape symbol = Some shape -> truthy_string shape = true.
Proof.
  unfold spec_vowelShape.
  repeat match goal with
         | |- context [String.eqb symbol ?l] => destruct (String.eqb symbol l)
         end; intros H; inversion H; reflexivity.
Qed.

Lemma resolveExpression_spec (symbol : string) (next : option PhonemeSection) :
  resolveExpression symbol next
  = spec_expressionMapper symbol (option_map phonemeString next).
Proof.
  unfold resolveExpression, spec_expressionMapper, spec_closureClass.
  cbn -[String.eqb spec_vowelShape vowelMap].
  rewrite orb_false_r, <- !orb_assoc.
  destruct (_ || _); [reflexivity|].
  destruct (String.eqb symbol "w"); [reflexivity|].
  unfold spec_vowelShape at 1.
  repeat match goal with
         | |- context [String.eqb symbol ?l] => destruct (String.eqb symbol l); [reflexivity|]
         end.
  destruct next as [n|]; [|reflexivity]. simpl option_map.
  rewrite vowelMap_get.
  destruct (spec_vowelShape (phonemeString n)) as [shape|] eqn:E; [|reflexivity].
  now rewrite (spec_vowelShape_truthy _ _ E).
Qed.

Section ExpressionMapper.

Variable secondToTick : number -> list (option Tempo) -> number -> number.
Variable frequencyToNoteNumber : option number -> number.

Lemma resolveSections_expressions startTime frameRate tempos tpqn f0 :
  forall (phonemes : list FramePhoneme) (c lastEndTick : number),
    map (fun s => (expression s, weight s))
        (fst (resolveSections secondToTick frequencyToNoteNumber
                startTime frameRate tempos tpqn f0
                (searchSections_from c phonemes) lastEndTick))
    = spec_expressions (map phoneme phonemes).
Proof.
  intros phonemes.
  induction phonemes as [|p rest IH]; intros c lastEndTick; [reflexivity|].
  cbn -[resolveExpression String.eqb].
  rewrite resolveExpression_spec.
  destruct (spec_expressionMapper _ _) as [exp w] eqn:E.
  destruct (resolveSections _ _ _ _ _ _ _ _ _) as [rest' l'] eqn:R.
  cbn [fst map expression weight]. f_equal.
  - rewrite <- E. f_equal. destruct rest; reflexivity.
  - specialize (IH (c + phoneme_frameLength p)
                   (if negb (String.eqb (phoneme p) "pau")
                    then Math_max lastEndTick
                           (secondToTick (startTime + (c + phoneme_frameLength p) / frameRate)
                                         tempos tpqn)
                    else lastEndTick)).
    cbn [phonemeString endFrame] in R. rewrite R in IH. exact IH.
Qed.

End ExpressionMapper.

(** C4: the shape and weight cached for every phoneme are the ones the
    rules of section 4.2 give it: the closure class maps to the silence
    expression with weight 1, [w] to ou with 0.7, the five vowels to their
    shapes with weight 1, and any other symbol gets 0.7 with the shape of the
    next phoneme when that is a vowel and ou otherwise, also at the end of
    the sequence.  For a, k, i, pau this gives aa, ih, ih, silence with
    weights 1, 0.7, 1, 1. *)
Theorem expression_mapper_rules
  (secondToTick : number -> list (option Tempo) -> number -> number)
  (frequencyToNoteNumber : option number -> number)
  (startTime frameRate : number) (tempos : list (option Tempo)) (tpqn : number)
  (f0 : list number) (lastEndTick : number) :
  (forall phonemes : list FramePhoneme,
      cachedExpressions secondToTick frequencyToNoteNumber
        startTime frameRate tempos tpqn f0 lastEndTick phonemes
      = spec_expressions (map phoneme phonemes))
  /\ (forall symbol la, ~ In symbol spec_closureClass -> symbol <> "w"%string ->
        spec_vowelShape symbol = None ->
        cachedExpressions secondToTick frequencyToNoteNumber
          startTime frameRate tempos tpqn f0 lastEndTick
          [ {| phoneme := symbol; phoneme_frameLength := la |} ]
        = [("ou"%string, 0.7)])
  /\ (forall la lk li lp,
        cachedExpressions secondToTick frequencyToNoteNumber
          startTime frameRate tempos tpqn f0 lastEndTick
          [ {| phoneme := "a"; phoneme_frameLength := la |};
            {| phoneme := "k"; phoneme_frameLength := lk |};
            {| phoneme := "i"; phoneme_frameLength := li |};
            {| phoneme := "pau"; phoneme_frameLength := lp |} ]
        = [("aa"%string, 1); ("ih"%string, 0.7); ("ih"%string, 1); (EXP_CLOSE, 1)]).
Proof.
  assert (G : forall phonemes : list FramePhoneme,
      cachedExpressions secondToTick frequencyToNoteNumber
        startTime frameRate tempos tpqn f0 lastEndTick phonemes
      = spec_expressions (map phoneme phonemes)).
  { intros phonemes. apply resolveSections_expressions. }
  split; [exact G|]. split.
  - intros symbol la Hc Hw Hv. rewrite G. cbn [map phoneme spec_expressions hd_error].
    unfold spec_expressionMapper. rewrite Hv.
    replace (existsb (String.eqb symbol) spec_closureClass) with false.
    + apply String.eqb_neq in Hw. rewrite Hw. reflexivity.
    + symmetry. apply not_true_is_false. intros H. apply existsb_exists in H.
      destruct H as [x [Hx E]]. apply String.eqb_eq in E. subst x. contradiction.
  - intros. rewrite G. reflexivity.
Qed.

(* ================================================================== *)
(** ** The Playhead Lookup *)


(** For numbers that are not [NaN] the test is membership of the closed
    interval. *)
Lemma covers_closed_interval (start stop headTick : number) :
  is_nan start = false -> is_nan stop = false -> is_nan headTick = false ->
  covers start stop headTick = (start <=? headTick) && (headTick <=? stop).
Proof.
  intros Hs He Hh. unfold covers.
  destruct (headTick <? start) eqn:A; simpl.
  - symmetry. apply andb_false_intro1. apply not_true_is_false. intros L.
    pose proof (NumberOrder.ltb_leb _ _ A) as L'.
    pose proof (NumberOrder.leb_eqb _ _ L L') as Q.
    rewrite ltb_spec in A. rewrite eqb_spec in Q. unfold SFltb, SFeqb in *.
    rewrite (NumberOrder.SFcompare_swap (Prim2SF start) (Prim2SF headTick)) in A.
    destruct (SFcompare (Prim2SF start) (Prim2SF headTick)) as [[]|]; discriminate.
  - rewrite (NumberOrder.not_ltb_leb _ _ Hh Hs A). simpl.
    destruct (stop <? headTick) eqn:B; simpl.
    + symmetry. apply not_true_is_false. intros L.
      pose proof (NumberOrder.ltb_leb _ _ B) as L'.
      pose proof (NumberOrder.leb_eqb _ _ L L') as Q.
      rewrite ltb_spec in B. rewrite eqb_spec in Q. unfold SFltb, SFeqb in *.
      rewrite (NumberOrder.SFcompare_swap (Prim2SF headTick) (Prim2SF stop)) in B.
      destruct (SFcompare (Prim2SF headTick) (Prim2SF stop)) as [[]|]; discriminate.
    + symmetry. apply NumberOrder.not_ltb_leb; assumption.
Qed.



Lemma searchSection_sections_filter (headTick : number) (ss : list PhonemeSection) :
  searchSection_sections headTick ss = hd_error (filter (activeIn headTick) ss).
Proof.
  induction ss as [|s rest IH]; [reflexivity|].
  simpl. unfold activeIn at 1, covers.
  destruct ((headTick <? startTick s) || (endTick s <? headTick)); simpl; [exact IH|].
  destruct (String.eqb (phonemeString s) "pau"); simpl; [exact IH|reflexivity].
Qed.

Lemma searchSection_frames_candidates (headTick : number) (frames : list OneFrame) :
  searchSection_frames headTick frames
  = hd_error
      (flat_map
         (fun oneframe =>
            if covers (frame_startTick oneframe) (frame_endTick oneframe) headTick
            then filter (activeIn headTick) (sections oneframe)
            else [])
         frames).
Proof.
  induction frames as [|f rest IH]; [reflexivity|].
  simpl. unfold covers at 1.
  destruct ((headTick <? frame_startTick f) || (frame_endTick f <? headTick));
    simpl; [exact IH|].
  rewrite searchSection_sections_filter.
  destruct (filter (activeIn headTick) (sections f)); simpl; [exact IH|reflexivity].
Qed.

Lemma searchSection_first_candidate (frameMap : JSMap.t OneFrame) (headTick : number) :
  searchSection frameMap headTick
  = hd fallbackSection (candidates frameMap headTick).
Proof.
  unfold searchSection, candidates. rewrite searchSection_frames_candidates.
  destruct (flat_map _ _); reflexivity.
Qed.

Lemma candidates_In (frameMap : JSMap.t OneFrame) (headTick : number) s :
  In s (candidates frameMap headTick) <->
  exists oneframe,
    In oneframe (JSMap.values frameMap)
    /\ covers (frame_startTick oneframe) (frame_endTick oneframe) headTick = true
    /\ In s (sections oneframe)
    /\ covers (startTick s) (endTick s) headTick = true
    /\ phonemeString s <> "pau"%string.
Proof.
  unfold candidates. rewrite in_flat_map. split.
  - intros [f [Hf Hs]]. exists f.
    destruct (covers (frame_startTick f) _ _) eqn:C; [|contradiction].
    apply filter_In in Hs. destruct Hs as [Hs A]. unfold activeIn in A.
    apply andb_true_iff in A. destruct A as [A B].
    apply negb_true_iff, String.eqb_neq in B. auto.
  - intros [f [Hf [C [Hs [A B]]]]]. exists f. split; [assumption|].
    rewrite C. apply filter_In. split; [assumption|].
    unfold activeIn. rewrite A. apply String.eqb_neq in B. now rewrite B.
Qed.


(* ================================================================== *)
(** ** The Phrase Timeline Cache *)

Section MapFacts.
Context {V : Type}.

Lemma get_set_other (k k' : string) (v : V) (m : JSMap.t V) :
  k' <> k -> JSMap.get k (JSMap.set k' v m) = JSMap.get k m.
Proof.
  intros Hne. induction m as [|[k0 v0] r IH]; cbn -[String.eqb].
  - apply String.eqb_neq in Hne. now rewrite Hne.
  - destruct (String.eqb k0 k') eqn:E; cbn -[String.eqb].
    + apply String.eqb_eq in E. subst k0.
      apply String.eqb_neq in Hne. now rewrite Hne.
    + now rewrite IH.
Qed.

Lemma get_set_same (k : string) (v : V) (m : JSMap.t V) :
  JSMap.get k (JSMap.set k v m) = Some v.
Proof.
  induction m as [|[k0 v0] r IH]; cbn -[String.eqb].
  - now rewrite String.eqb_refl.
  - destruct (String.eqb k0 k) eqn:E; cbn -[String.eqb]; rewrite E; auto.
Qed.

Lemma get_filter_keys (p : string -> bool) (k : string) (m : JSMap.t V) :
  JSMap.get k (filter (fun kv => p (fst kv)) m)
  = if p k then JSMap.get k m else None.
Proof.
  induction m as [|[k0 v0] r IH]; cbn -[String.eqb].
  - now destruct (p k).
  - destruct (p k0) eqn:P; cbn -[String.eqb].
    + destruct (String.eqb k0 k) eqn:E; [|exact IH].
      apply String.eqb_eq in E. subst k0. now rewrite P.
    + rewrite IH. destruct (String.eqb k0 k) eqn:E; [|reflexivity].
      apply String.eqb_eq in E. subst k0. now rewrite P.
Qed.

End MapFacts.

(** What the pruning loop leaves: the entries whose key the store still
    has, in their order; the flag says whether an entry was dropped. *)
Lemma pruneFrameMap_filter (phrases : JSMap.t Phrase) (frameMap : JSMap.t OneFrame) :
  pruneFrameMap phrases frameMap
  = (filter (fun kv => JSMap.has (fst kv) phrases) frameMap,
     existsb (fun k => negb (JSMap.has k phrases)) (JSMap.keys frameMap)).
Proof.
  unfold pruneFrameMap.
  set (step := fun (acc : JSMap.t OneFrame * bool) phraseKey =>
                 if negb (JSMap.has phraseKey phrases)
                 then (JSMap.delete phraseKey (fst acc), true) else acc).
  assert (G : forall ks acc d,
             fold_left step ks (acc, d)
             = (filter (fun kv => negb (existsb (fun k => String.eqb (fst kv) k
                                                         && negb (JSMap.has k phrases)) ks))
                       acc,
                d || existsb (fun k => negb (JSMap.has k phrases)) ks)).
  { induction ks as [|k ks IH]; intros acc d; simpl.
    - rewrite orb_false_r. f_equal. induction acc as [|x r IHr]; simpl; congruence.
    - unfold step at 2. destruct (JSMap.has k phrases) eqn:H; simpl.
      + rewrite IH. f_equal. apply filter_ext. intros kv. now rewrite andb_false_r.
      + rewrite IH. rewrite orb_true_r. f_equal. unfold JSMap.delete.
        clear. induction acc as [|x r IHr]; simpl; [reflexivity|].
        destruct (String.eqb (fst x) k); simpl.
        * exact IHr.
        * destruct (existsb _ ks); simpl; congruence. }
  rewrite G. f_equal. apply filter_ext_in. intros [k v] Hin. simpl.
  destruct (JSMap.has k phrases) eqn:H.
  - apply negb_true_iff. apply not_true_is_false. intros E.
    apply existsb_exists in E. destruct E as [k' [_ E]].
    apply andb_true_iff in E. destruct E as [E1 E2].
    apply String.eqb_eq in E1. subst k'. rewrite H in E2. discriminate.
  - apply negb_false_iff. apply existsb_exists. exists k. split.
    + unfold JSMap.keys. change k with (fst (k, v)). now apply in_map.
    + now rewrite String.eqb_refl, H.
Qed.

(** A running [Math.max] over numbers that are not [NaN] is their maximum:
    it bounds the start value and every element, and is one of them. *)
Lemma running_max_spec {A : Type} (g : A -> number) (l : list A) :
  forall a : number,
    is_nan a = false ->
    forallb (fun x => negb (is_nan (g x))) l = true ->
    let m := fold_left (fun acc x => Math_max acc (g x)) l a in
    (a <=? m) = true
    /\ (forall x, In x l -> (g x <=? m) = true)
    /\ (m = a \/ exists x, In x l /\ m = g x).
Proof.
  induction l as [|y r IH]; intros a Ha Hl; simpl in *.
  - repeat split; auto using NumberOrder.leb_refl; try (intros x []).
  - apply andb_true_iff in Hl. destruct Hl as [Hy Hr]. apply negb_true_iff in Hy.
    destruct (NumberOrder.Math_max_spec a (g y) Ha Hy) as [Hc [La Ly]].
    destruct (IH (Math_max a (g y)) (NumberOrder.Math_max_not_nan _ _ Ha Hy) Hr)
      as [L1 [L2 L3]].
    repeat split.
    + eapply NumberOrder.leb_trans; eassumption.
    + intros x [<-|Hx]; [eapply NumberOrder.leb_trans; eassumption|auto].
    + destruct L3 as [E|[x [Hx E]]].
      * rewrite E. destruct Hc as [Hc|Hc]; [now left|right; exists y; auto].
      * right. exists x. auto.
Qed.


Lemma ticksNonNegative_not_nan (frameMap : JSMap.t OneFrame) :
  ticksNonNegative frameMap = true ->
  forallb (fun f => negb (is_nan (frame_endTick f))) (JSMap.values frameMap) = true.
Proof.
  unfold ticksNonNegative. rewrite !forallb_forall. intros H f Hf.
  apply negb_true_iff. apply (NumberOrder.leb_not_nan 0). auto.
Qed.

Lemma ticksNonNegative_filter (p : string * OneFrame -> bool) (frameMap : JSMap.t OneFrame) :
  ticksNonNegative frameMap = true -> ticksNonNegative (filter p frameMap) = true.
Proof.
  unfold ticksNonNegative, JSMap.values. rewrite !forallb_forall. intros H f Hf.
  apply H. apply in_map_iff in Hf. destruct Hf as [kv [E Hkv]].
  apply filter_In in Hkv. apply in_map_iff. exists kv. tauto.
Qed.

(** The recomputed value is the largest end tick of the cache, and 0 for an
    empty cache. *)
Lemma recomputeLastEndTick_max (frameMap : JSMap.t OneFrame) :
  ticksNonNegative frameMap = true ->
  (forall oneframe, In oneframe (JSMap.values frameMap) ->
                    (frame_endTick oneframe <=? recomputeLastEndTick frameMap) = true)
  /\ (frameMap = [] -> recomputeLastEndTick frameMap = 0)
  /\ (frameMap <> [] ->
      exists oneframe, In oneframe (JSMap.values frameMap)
                       /\ (recomputeLastEndTick frameMap =? frame_endTick oneframe) = true).
Proof.
  intros Hpos. unfold recomputeLastEndTick.
  destruct (running_max_spec frame_endTick (JSMap.values frameMap) 0 eq_refl
              (ticksNonNegative_not_nan _ Hpos)) as [L0 [L1 L2]].
  split; [exact L1|]. split; [intros ->; reflexivity|].
  intros Hne. destruct L2 as [E|[f [Hf E]]].
  - destruct frameMap as [|[k f] r]; [congruence|].
    exists f. split; [now left|].
    apply NumberOrder.leb_eqb.
    + rewrite E. unfold ticksNonNegative in Hpos. rewrite forallb_forall in Hpos.
      apply Hpos. now left.
    + apply L1. now left.
  - exists f. split; [assumption|]. rewrite E.
    apply NumberOrder.leb_eqb; apply NumberOrder.leb_refl;
      apply negb_true_iff;
      pose proof (ticksNonNegative_not_nan _ Hpos) as N;
      rewrite forallb_forall in N; auto.
Qed.



Section CacheProperties.

Variable secondToTick : number -> list (option Tempo) -> number -> number.
Variable frequencyToNoteNumber : option number -> number.
Variable Math_sin : number -> number.
Variable Math_cos : number -> number.

Local Abbreviation updatePhrase_ := (updatePhrase secondToTick frequencyToNoteNumber).
Local Abbreviation updatePhrases_ := (updatePhrases secondToTick frequencyToNoteNumber).
Local Abbreviation poseStep_ := (poseStep Math_sin Math_cos).
Local Abbreviation render_ := (render secondToTick frequencyToNoteNumber Math_sin Math_cos).


Lemma resolveSections_lastEndTick startTime frameRate tempos tpqn f0 :
  forall (ss : list PhonemeSection) (l : number),
    snd (resolveSections secondToTick frequencyToNoteNumber
           startTime frameRate tempos tpqn f0 ss l)
    = fold_left Math_max
        (map endTick
           (filter (fun s => negb (String.eqb (phonemeString s) "pau"))
              (fst (resolveSections secondToTick frequencyToNoteNumber
                      startTime frameRate tempos tpqn f0 ss l))))
        l.
Proof.
  induction ss as [|s rest IH]; intros l; [reflexivity|].
  cbn -[resolveExpression String.eqb].
  destruct (resolveExpression _ _) as [exp w].
  specialize (IH (if negb (String.eqb (phonemeString s) "pau")
                  then Math_max l (secondToTick (startTime + endFrame s / frameRate)
                                                tempos tpqn)
                  else l)).
  destruct (resolveSections _ _ _ _ _ _ _ _ _) as [rest' l'].
  cbn -[String.eqb] in *. rewrite IH.
  destruct (String.eqb (phonemeString s) "pau"); reflexivity.
Qed.

Lemma resolveExpression_weight (symbol : string) (next : option PhonemeSection) :
  snd (resolveExpression symbol next) = 1
  \/ snd (resolveExpression symbol next) = consonantWeight.
Proof.
  unfold resolveExpression.
  destruct (_ || _); [now left|].
  repeat match goal with
         | |- context [String.eqb symbol ?l] => destruct (String.eqb symbol l); [auto|]
         end.
  destruct (match next with Some _ => _ | None => _ end) as [e|]; [|now right].
  destruct (truthy_string e); now right.
Qed.

Lemma resolveSections_weights startTime frameRate tempos tpqn f0 :
  forall (ss : list PhonemeSection) (l : number) s,
    In s (fst (resolveSections secondToTick frequencyToNoteNumber
                 startTime frameRate tempos tpqn f0 ss l)) ->
    weight s = 1 \/ weight s = consonantWeight.
Proof.
  induction ss as [|s0 rest IH]; intros l s; [intros []|].
  cbn -[resolveExpression String.eqb].
  pose proof (resolveExpression_weight (phonemeString s0) (hd_error rest)) as W.
  destruct (resolveExpression _ _) as [exp w].
  specialize (IH (if negb (String.eqb (phonemeString s0) "pau")
                  then Math_max l (secondToTick (startTime + endFrame s0 / frameRate)
                                                tempos tpqn)
                  else l) s).
  destruct (resolveSections _ _ _ _ _ _ _ _ _) as [rest' l'].
  cbn [fst snd] in *. intros [<-|H]; [exact W|auto].
Qed.

Lemma updatePhrase_change engineManifests k phrase st :
  CacheChange k st (fst (updatePhrase_ engineManifests k phrase st)).
Proof.
  unfold updatePhrase.
  destruct (singer phrase) as [sg|]; [|now left].
  destruct (query phrase) as [q|]; [|now left].
  destruct (startTime phrase) as [t0|]; [|now left].
  destruct (negb (truthy t0)); [now left|].
  destruct (JSMap.get (engineId sg) engineManifests) as [frameRate|]; [|now left].
  cbn [frameMap set_lastTpqn].
  destruct (JSMap.get k (frameMap st)) eqn:G; [now left|].
  destruct (hd_error _); [|now left].
  destruct (nth_error _ _); [|now left].
  pose proof (resolveSections_lastEndTick t0 frameRate [hd_error (tempos phrase)]
                (tpqn phrase) (f0 q) (searchSections (phonemes q))
                (lastEndTick (set_lastTpqn (tpqn phrase) st))) as L.
  pose proof (resolveSections_weights t0 frameRate [hd_error (tempos phrase)]
                (tpqn phrase) (f0 q) (searchSections (phonemes q))
                (lastEndTick (set_lastTpqn (tpqn phrase) st))) as W.
  destruct (resolveSections _ _ _ _ _ _ _ _ _) as [ss' l'].
  cbn [fst snd] in L, W.
  cbn [fst frameMap lastEndTick set_frameMap set_lastEndTick set_lastTpqn] in *.
  eright; [exact G|reflexivity|exact L|exact W].
Qed.

(** A timeline that is cached stays as it is through [updatePhrase] under
    any key. *)
Lemma updatePhrase_keeps engineManifests k' phrase st k tl :
  JSMap.get k (frameMap st) = Some tl ->
  JSMap.get k (frameMap (fst (updatePhrase_ engineManifests k' phrase st))) = Some tl.
Proof.
  intros G. destruct (updatePhrase_change engineManifests k' phrase st) as [E _|f N E _ _];
    rewrite E; [assumption|].
  rewrite get_set_other; [assumption|]. intros ->. congruence.
Qed.

Lemma updatePhrases_keeps engineManifests phrases k tl :
  forall st,
    JSMap.get k (frameMap st) = Some tl ->
    JSMap.get k (frameMap (fst (updatePhrases_ engineManifests phrases st))) = Some tl.
Proof.
  induction phrases as [|[k' phrase] rest IH]; intros st G; [exact G|].
  simpl. pose proof (updatePhrase_keeps engineManifests k' phrase st k tl G) as G'.
  destruct (updatePhrase_ engineManifests k' phrase st) as [st' [e|]]; [exact G'|].
  apply IH. exact G'.
Qed.

Lemma pruneStep_keeps phrases st k tl :
  JSMap.has k phrases = true ->
  JSMap.get k (frameMap st) = Some tl ->
  JSMap.get k (frameMap (pruneStep phrases st)) = Some tl.
Proof.
  intros H G. unfold pruneStep. rewrite pruneFrameMap_filter.
  destruct (existsb _ _); cbn [frameMap set_lastEndTick set_frameMap];
    rewrite (get_filter_keys (fun k => JSMap.has k phrases)), H; exact G.
Qed.

Lemma poseStep_frameMap playheadTicks st :
  frameMap (fst (poseStep_ playheadTicks st)) = frameMap st
  /\ lastEndTick (fst (poseStep_ playheadTicks st)) = lastEndTick st
  /\ lastTpqn (fst (poseStep_ playheadTicks st)) = lastTpqn st.
Proof.
  unfold poseStep.
  destruct (gtb _ _); [destruct (negb (isEnd st)); [destruct (_ =? 1)|]|destruct (_ <? 1)];
    cbv zeta; cbn [fst]; try destruct (isEnd st); auto.
Qed.

(** The state [render] leaves holds the cache the update loop left. *)
Lemma render_frameMap frame st :
  frameMap (fst (render_ frame st)) = frameMap st
  \/ frameMap (fst (render_ frame st))
     = frameMap (fst (updatePhrases_ (engineManifests frame) (phrases frame)
                        (pruneStep (phrases frame) st))).
Proof.
  unfold render.
  destruct (falsy_or_undefined _); [now left|].
  destruct (falsy_or_undefined _); [now left|].
  destruct (negb _); [now left|]. destruct (negb _); [now left|].
  destruct (negb _); [now left|]. destruct (negb _); [now left|].
  right. destruct (updatePhrases_ _ _ _) as [st' [e|]]; [reflexivity|].
  pose proof (poseStep_frameMap (playheadTicks frame) st') as [E _].
  destruct (poseStep_ _ st') as [st'' p]. exact E.
Qed.

(** C8: once a phrase has a timeline, handing [updatePhrase] another
    snapshot of that phrase changes neither the cache nor [lastEndTick]; and
    a whole frame in which the store still has the phrase leaves its timeline
    as it was, whether the frame completes or throws. *)
Theorem upsert_keeps_cached_timeline (frame : Frame) (st : State) (k : string)
  (tl : OneFrame) :
  JSMap.get k (frameMap st) = Some tl ->
  (forall engineManifests phrase,
      frameMap (fst (updatePhrase_ engineManifests k phrase st)) = frameMap st
      /\ lastEndTick (fst (updatePhrase_ engineManifests k phrase st)) = lastEndTick st)
  /\ (JSMap.has k (phrases frame) = true ->
      JSMap.get k (frameMap (fst (render_ frame st))) = Some tl).
Proof.
  intros G. split.
  - intros engineManifests phrase.
    destruct (updatePhrase_change engineManifests k phrase st) as [E1 E2|f N _ _ _];
      [auto|congruence].
  - intros H. destruct (render_frameMap frame st) as [E|E]; rewrite E; [exact G|].
    apply updatePhrases_keeps. apply pruneStep_keeps; assumption.
Qed.

(** C3, as the code has it: when the pruning drops a timeline,
    [lastEndTick] becomes the largest end tick of the surviving timelines
    (0 when none survives); when [updatePhrase] inserts a timeline,
    [lastEndTick] becomes the running maximum of its old value and the end
    ticks of the new timeline's sections that are not silence, so it is
    raised to the end of the last voiced section, not to the timeline's own
    end tick. *)
Theorem lastEndTick_pruned_and_extended (phrases : JSMap.t Phrase) (st : State) :
  ticksNonNegative (frameMap st) = true ->
  existsb (fun k => negb (JSMap.has k phrases)) (JSMap.keys (frameMap st)) = true ->
  ((forall oneframe, In oneframe (JSMap.values (frameMap (pruneStep phrases st))) ->
                     (frame_endTick oneframe <=? lastEndTick (pruneStep phrases st)) = true)
   /\ (frameMap (pruneStep phrases st) <> [] ->
       exists oneframe, In oneframe (JSMap.values (frameMap (pruneStep phrases st)))
                        /\ (lastEndTick (pruneStep phrases st) =? frame_endTick oneframe) = true)
   /\ (frameMap (pruneStep phrases st) = [] -> lastEndTick (pruneStep phrases st) = 0))
  /\ (forall engineManifests k phrase s0 tl,
        JSMap.get k (frameMap s0) = None ->
        JSMap.get k (frameMap (fst (updatePhrase_ engineManifests k phrase s0))) = Some tl ->
        let s1 := fst (updatePhrase_ engineManifests k phrase s0) in
        lastEndTick s1 = fold_left Math_max (voicedEndTicks tl) (lastEndTick s0)
        /\ (is_nan (lastEndTick s0) = false ->
            forallb (fun e => negb (is_nan e)) (voicedEndTicks tl) = true ->
            (lastEndTick s0 <=? lastEndTick s1) = true
            /\ (forall e, In e (voicedEndTicks tl) -> (e <=? lastEndTick s1) = true)
            /\ (lastEndTick s1 = lastEndTick s0 \/ In (lastEndTick s1) (voicedEndTicks tl)))).
Proof.
  intros Hpos Hdel. split.
  - unfold pruneStep. rewrite pruneFrameMap_filter, Hdel.
    cbn [frameMap lastEndTick set_lastEndTick set_frameMap].
    pose proof (recomputeLastEndTick_max _
                  (ticksNonNegative_filter (fun kv => JSMap.has (fst kv) phrases) _ Hpos))
      as [M1 [M2 M3]].
    auto.
  - intros engineManifests k phrase s0 tl N G s1. subst s1.
    destruct (updatePhrase_change engineManifests k phrase s0) as [E _|f _ E L _];
      [congruence|].
    rewrite E, get_set_same in G. injection G as ->.
    split; [exact L|]. intros Hn Hl. rewrite L.
    destruct (running_max_spec (fun e => e) (voicedEndTicks tl) (lastEndTick s0) Hn Hl)
      as [M1 [M2 M3]].
    split; [exact M1|]. split; [exact M2|].
    destruct M3 as [M3|[x [Hx M3]]]; [now left|right].
    assert (Q : fold_left Math_max (voicedEndTicks tl) (lastEndTick s0) = x) by exact M3.
    now rewrite Q.
Qed.

End CacheProperties.

(* ================================================================== *)
(** ** The Pose Blender *)

Section MapEntries.
Context {V : Type}.

Lemma In_set (k k' : string) (v v' : V) (m : JSMap.t V) :
  In (k, v) (JSMap.set k' v' m) -> (k = k' /\ v = v') \/ In (k, v) m.
Proof.
  induction m as [|[k0 v0] r IH]; cbn -[String.eqb].
  - intros [E|[]]. injection E as <- <-. now left.
  - destruct (String.eqb k0 k') eqn:E; cbn -[String.eqb].
    + apply String.eqb_eq in E. subst k0. intros [H|H].
      * injection H as <- <-. now left.
      * right. now right.
    + intros [H|H].
      * right. now left.
      * destruct (IH H) as [L|L]; [now left|right; now right].
Qed.

Lemma In_values_set (k : string) (v x : V) (m : JSMap.t V) :
  In x (JSMap.values (JSMap.set k v m)) -> x = v \/ In x (JSMap.values m).
Proof.
  unfold JSMap.values. intros H. apply in_map_iff in H.
  destruct H as [[k0 v0] [E H]]. simpl in E. subst v0.
  destruct (In_set _ _ _ _ _ H) as [[_ ->]|H']; [now left|right].
  apply in_map_iff. exists (k0, x). auto.
Qed.

End MapEntries.


Lemma weightsInRange_spec (frameMap : JSMap.t OneFrame) :
  weightsInRange frameMap = true <->
  forall oneframe s, In oneframe (JSMap.values frameMap) -> In s (sections oneframe) ->
                     (0 <=? weight s) && (weight s <=? 1) = true.
Proof.
  unfold weightsInRange. rewrite forallb_forall. split.
  - intros H f s Hf Hs. specialize (H f Hf). rewrite forallb_forall in H. auto.
  - intros H f Hf. apply forallb_forall. intros s Hs. eauto.
Qed.

Lemma searchSection_weight (frameMap : JSMap.t OneFrame) (headTick : number) :
  weightsInRange frameMap = true ->
  (0 <=? weight (searchSection frameMap headTick))
  && (weight (searchSection frameMap headTick) <=? 1) = true.
Proof.
  intros W. rewrite searchSection_first_candidate.
  destruct (candidates frameMap headTick) as [|c cs] eqn:E; [reflexivity|].
  assert (Hc : In c (candidates frameMap headTick)) by (rewrite E; now left).
  apply candidates_In in Hc. destruct Hc as [f [Hf [_ [Hs _]]]].
  simpl. eapply weightsInRange_spec; eassumption.
Qed.

Lemma makeWeight_entries (target : string) (weight : number) k v :
  In (k, v) (makeWeight target weight) ->
  In k vowelShapes /\ (v = 0 \/ v = weight).
Proof.
  assert (B : forall k v, In (k, v) [("aa"%string, 0); ("ih"%string, 0); ("ou"%string, 0);
                                    ("ee"%string, 0); ("oh"%string, 0)] ->
                          In k vowelShapes /\ v = 0).
  { intros k0 v0 H. simpl in H. unfold vowelShapes.
    decompose [or] H; try contradiction;
      match goal with E : (_, _) = (_, _) |- _ => injection E as <- <- end;
      simpl; auto 10. }
  unfold makeWeight. destruct (JSMap.has target _) eqn:Hhas; intros H.
  - destruct (In_set _ _ _ _ _ H) as [[-> ->]|H'].
    + split; [|now right]. unfold JSMap.has in Hhas.
      cbn -[String.eqb] in Hhas. unfold vowelShapes.
      repeat match type of Hhas with
             | context [String.eqb ?l target] =>
                 let E := fresh "E" in
                 destruct (String.eqb l target) eqn:E;
                 [apply String.eqb_eq in E; subst; simpl; auto 10|]
             end.
      discriminate.
    + destruct (B _ _ H') as [? ->]. auto.
  - destruct (B _ _ H) as [? ->]. auto.
Qed.

Section BlenderProperties.

Variable secondToTick : number -> list (option Tempo) -> number -> number.
Variable frequencyToNoteNumber : option number -> number.
Variable Math_sin : number -> number.
Variable Math_cos : number -> number.

Local Abbreviation updatePhrase_ := (updatePhrase secondToTick frequencyToNoteNumber).
Local Abbreviation updatePhrases_ := (updatePhrases secondToTick frequencyToNoteNumber).
Local Abbreviation poseStep_ := (poseStep Math_sin Math_cos).
Local Abbreviation render_ := (render secondToTick frequencyToNoteNumber Math_sin Math_cos).


(** The entries of the weight map of a frame: the closing gesture's, and
    the others, each 0, 1 or the weight of the active section. *)
Lemma expressionStep_entries (playheadTicks : number) (st : State) (pose : JSMap.t Vec3)
  k v :
  In (k, v) (weights (expressionStep playheadTicks st pose)) ->
  (k = config.motion.last.expression /\ v = endAppendOf playheadTicks st)
  \/ (In k expressionKeys
      /\ (v = 0 \/ v = 1 \/ v = weight (searchSection (frameMap st) playheadTicks))).
Proof.
  unfold expressionStep. cbv zeta. cbn [weights].
  set (w := weight (searchSection (frameMap st) playheadTicks)).
  match goal with
  | |- context [makeWeight ?t w] => set (target := t)
  end.
  match goal with
  | |- context [JSMap.set config.motion.long.expression ?h _] => set (hauu := h)
  end.
  assert (Hh : hauu = 0 \/ hauu = 1).
  { unfold hauu.
    match goal with |- context [if ?c then 1 else 0] => destruct c end; auto. }
  clearbody hauu.
  fold (endAppendOf playheadTicks st).
  assert (G : forall k v,
             In (k, v) (JSMap.set config.motion.last.expression (endAppendOf playheadTicks st)
                          (JSMap.set config.motion.long.expression hauu
                             (makeWeight target w))) ->
             (k = config.motion.last.expression /\ v = endAppendOf playheadTicks st)
             \/ (In k expressionKeys /\ (v = 0 \/ v = 1 \/ v = w))).
  { intros k0 v0 H.
    destruct (In_set _ _ _ _ _ H) as [L|H1]; [now left|right].
    destruct (In_set _ _ _ _ _ H1) as [[-> ->]|H2].
    - split; [simpl; auto 10|tauto].
    - apply makeWeight_entries in H2. destruct H2 as [Hk Hv].
      split; [|tauto]. unfold vowelShapes in Hk. unfold expressionKeys.
      simpl in *. tauto. }
  destruct (negb _); [|apply G].
  intros H. destruct (In_set _ _ _ _ _ H) as [[-> ->]|H1]; [|now apply G].
  right. split; [simpl; auto 10|auto].
Qed.

Lemma weightsInRange_filter (p : string * OneFrame -> bool) (frameMap : JSMap.t OneFrame) :
  weightsInRange frameMap = true -> weightsInRange (filter p frameMap) = true.
Proof.
  rewrite !weightsInRange_spec. intros H f s Hf Hs. apply (H f s); [|exact Hs].
  unfold JSMap.values in *. apply in_map_iff in Hf. destruct Hf as [kv [E Hkv]].
  apply filter_In in Hkv. apply in_map_iff. exists kv. tauto.
Qed.

Lemma pruneStep_weights phrases st :
  weightsInRange (frameMap st) = true ->
  weightsInRange (frameMap (pruneStep phrases st)) = true.
Proof.
  intros W. unfold pruneStep. rewrite pruneFrameMap_filter.
  destruct (existsb _ _); cbn [frameMap set_lastEndTick set_frameMap];
    now apply weightsInRange_filter.
Qed.

Lemma updatePhrase_weights engineManifests k phrase st :
  weightsInRange (frameMap st) = true ->
  weightsInRange (frameMap (fst (updatePhrase_ engineManifests k phrase st))) = true.
Proof.
  intros W.
  destruct (updatePhrase_change secondToTick frequencyToNoteNumber
              engineManifests k phrase st) as [E _|f _ E _ Wf];
    rewrite E; [exact W|].
  apply weightsInRange_spec. intros g s Hg Hs.
  destruct (In_values_set _ _ _ _ Hg) as [->|Hg'].
  - destruct (Wf s Hs) as [Q|Q]; rewrite Q; reflexivity.
  - rewrite weightsInRange_spec in W. eauto.
Qed.

Lemma updatePhrases_weights engineManifests phrases :
  forall st,
    weightsInRange (frameMap st) = true ->
    weightsInRange (frameMap (fst (updatePhrases_ engineManifests phrases st))) = true.
Proof.
  induction phrases as [|[k phrase] rest IH]; intros st W; [exact W|].
  simpl. pose proof (updatePhrase_weights engineManifests k phrase st W) as W'.
  destruct (updatePhrase_ engineManifests k phrase st) as [st' [e|]]; [exact W'|].
  apply IH. exact W'.
Qed.

(** A frame that completes went through the four steps in order. *)
Lemma render_completes frame st st' out :
  render_ frame st = (st', inr out) ->
  exists s1 pose,
    updatePhrases_ (engineManifests frame) (phrases frame) (pruneStep (phrases frame) st)
    = (s1, None)
    /\ poseStep_ (playheadTicks frame) s1 = (st', pose)
    /\ out = expressionStep (playheadTicks frame) st' pose.
Proof.
  unfold render.
  destruct (falsy_or_undefined _); [discriminate|].
  destruct (falsy_or_undefined _); [discriminate|].
  destruct (negb _); [discriminate|]. destruct (negb _); [discriminate|].
  destruct (negb _); [discriminate|]. destruct (negb _); [discriminate|].
  destruct (updatePhrases_ _ _ _) as [s1 [e|]]; [discriminate|].
  destruct (poseStep_ _ s1) as [s2 pose] eqn:P. intros H. injection H as <- <-.
  exists s1, pose. auto.
Qed.

(** C2, as the code has it: in a frame that completes, every weight of the
    expression map other than the closing gesture's lies in [0, 1] (mouth
    shapes, the long-note gesture, the neutral face); the closing gesture's
    weight is [Math.min(1, (pastTick - lastTpqn * 3) / 24)], which is never
    above 1 but has no lower clamp. *)
Theorem expression_weights_range (frame : Frame) (st st' : State) (out : Output) :
  weightsInRange (frameMap st) = true ->
  render_ frame st = (st', inr out) ->
  forall k v, In (k, v) (weights out) ->
    (k <> config.motion.last.expression -> (0 <=? v) && (v <=? 1) = true)
    /\ (k = config.motion.last.expression ->
        v = Math_min 1 ((playheadTicks frame - lastEndTick st' - lastTpqn st' * 3) / 24)
        /\ (1 <? v) = false).
Proof.
  intros W R k v H.
  destruct (render_completes _ _ _ _ R) as [s1 [pose [U [P ->]]]].
  assert (W' : weightsInRange (frameMap st') = true).
  { pose proof (poseStep_frameMap Math_sin Math_cos (playheadTicks frame) s1) as [E _].
    rewrite P in E. cbn [fst] in E. rewrite E.
    pose proof (updatePhrases_weights (engineManifests frame) (phrases frame) _
                  (pruneStep_weights (phrases frame) st W)) as W1.
    rewrite U in W1. exact W1. }
  destruct (expressionStep_entries _ _ _ _ _ H) as [[-> ->]|[Hk Hv]].
  - split; [congruence|]. intros _. split; [reflexivity|].
    apply NumberOrder.Math_min_1_not_above.
  - split.
    + intros _. destruct Hv as [ -> | [ -> | -> ] ]; try reflexivity.
      now apply searchSection_weight.
    + intros ->. exfalso. unfold expressionKeys in Hk. simpl in Hk.
      decompose [or] Hk; try discriminate; contradiction.
Qed.


Lemma endAppendOf_nan (st : State) : endAppendOf nan st = nan.
Proof.
  unfold endAppendOf.
  now rewrite !NumberOrder.sub_nan_l, NumberOrder.div_nan_l, NumberOrder.Math_min_nan_r.
Qed.

Lemma expressionStep_last (playheadTicks : number) (st : State) (pose : JSMap.t Vec3) :
  JSMap.get config.motion.last.expression (weights (expressionStep playheadTicks st pose))
  = Some (endAppendOf playheadTicks st).
Proof.
  unfold expressionStep. cbv zeta. cbn [weights]. fold (endAppendOf playheadTicks st).
  destruct (negb _).
  - rewrite get_set_other by discriminate. apply get_set_same.
  - apply get_set_same.
Qed.

(** C1, what the code does: with [playheadTicks = NaN] a frame that
    completes stores [NaN] as the closing gesture's weight, whatever the
    state and the store are: only the sway phase is guarded by
    [Number.isFinite]. *)
Theorem render_nan_playhead_weight (frame : Frame) (st : State) :
  match snd (render_ (withPlayhead nan frame) st) with
  | inr out => JSMap.get config.motion.last.expression (weights out) = Some nan
  | inl _ => True
  end.
Proof.
  destruct (render_ (withPlayhead nan frame) st) as [st' [e|out]] eqn:R;
    cbn [snd]; [exact I|].
  destruct (render_completes _ _ _ _ R) as [s1 [pose [_ [_ ->]]]].
  cbn [playheadTicks withPlayhead].
  rewrite expressionStep_last. now rewrite endAppendOf_nan.
Qed.


(** A frame of the decay before [t] reaches 1: the captured rotation is
    kept, and chest and head get it scaled by [1 - cosEase t] (the head's
    third component four times the chest's). *)
Lemma poseStep_decaying (playheadTicks : number) (st : State) (r : Vec3) :
  isEnd st = false ->
  lastRot st = Some r ->
  gtb (playheadTicks - lastEndTick st) 0 = true ->
  (Math_min 1 ((playheadTicks - lastEndTick st) / lastTpqn st) =? 1) = false ->
  let t := Math_min 1 ((playheadTicks - lastEndTick st) / lastTpqn st) in
  isEnd (fst (poseStep_ playheadTicks st)) = false
  /\ lastRot (fst (poseStep_ playheadTicks st)) = Some r
  /\ JSMap.get "chest" (snd (poseStep_ playheadTicks st))
     = Some (0, 0, snd r * (1 - cosEase Math_cos t))
  /\ JSMap.get "head" (snd (poseStep_ playheadTicks st))
     = Some (fst (fst r) * (1 - cosEase Math_cos t), 0,
             snd r * (1 - cosEase Math_cos t) * 4).
Proof.
  intros E L P T. unfold poseStep. rewrite P, E, L. cbn [negb]. cbv zeta.
  rewrite T. cbn [fst snd isEnd lastRot set_ending].
  repeat split.
Qed.

(** While the state is ENDED and the playhead stays past the content, chest
    and head are held at rest. *)
Lemma poseStep_stays_ended (playheadTicks : number) (st : State) :
  isEnd st = true ->
  gtb (playheadTicks - lastEndTick st) 0 = true ->
  isEnd (fst (poseStep_ playheadTicks st)) = true
  /\ JSMap.get "chest" (snd (poseStep_ playheadTicks st)) = Some (0, 0, 0)
  /\ JSMap.get "head" (snd (poseStep_ playheadTicks st)) = Some (0, 0, 0).
Proof.
  intros E P. unfold poseStep. rewrite P, E. cbn [negb]. cbv zeta.
  cbn [fst snd isEnd lastRot set_ending].
  repeat split.
Qed.

End BlenderProperties.

(* ================================================================== *)
(** ** The ending decay *)

Section DecayFacts.

Import RealReading.
Local Open Scope R_scope.




End DecayFacts.


(* ================================================================== *)
(** ** The properties at concrete frames *)


(** The hypotheses of C8 hold for the cached phrase "p1": a later frame
    whose store holds other phonemes under "p1" keeps the cached timeline. *)
Lemma upsert_keeps_cached_timeline_witness :
  JSMap.get "p1"
    (frameMap (fst (Sample.render (Sample.frameOf [("p1", Sample.laterSnapshot)] 100)
                                  Sample.cachedState)))
  = Some Sample.cachedTimeline.
Proof.
  refine (proj2 (upsert_keeps_cached_timeline
                   Sample.secondToTick Sample.frequencyToNoteNumber
                   Sample.Math_sin Sample.Math_cos
                   (Sample.frameOf [("p1", Sample.laterSnapshot)] 100)
                   Sample.cachedState "p1" Sample.cachedTimeline _) _);
    vm_compute; reflexivity.
Defined.

(** C3 as stated fails: the first frame inserts the timeline of "p1", whose
    end tick 1267.2 exceeds the current [lastEndTick] 0, and [lastEndTick]
    becomes 1164.8, the end of the voiced section, not 1267.2. *)
Lemma lastEndTick_not_timeline_end :
  JSMap.get "p1" (frameMap initialState) = None
  /\ JSMap.get "p1" (frameMap Sample.cachedState) = Some Sample.cachedTimeline
  /\ (lastEndTick initialState <? frame_endTick Sample.cachedTimeline) = true
  /\ frame_endTick Sample.cachedTimeline = 1267.2
  /\ lastEndTick Sample.cachedState = 1164.8
  /\ (lastEndTick Sample.cachedState =? frame_endTick Sample.cachedTimeline) = false.
Proof.
  vm_compute. repeat split.
Qed.

(** The hypotheses of C3, as the code has it, hold at the same frames. *)
Lemma lastEndTick_pruned_and_extended_witness :
  lastEndTick (pruneStep [] Sample.cachedState) = 0
  /\ lastEndTick
       (fst (updatePhrase Sample.secondToTick Sample.frequencyToNoteNumber
               [("engine", 93.75)] "p1" Sample.voicedThenSilent initialState))
     = fold_left Math_max (voicedEndTicks Sample.cachedTimeline) (lastEndTick initialState).
Proof.
  pose proof (lastEndTick_pruned_and_extended
                Sample.secondToTick Sample.frequencyToNoteNumber
                [] Sample.cachedState eq_refl eq_refl) as [[_ [_ Z]] X].
  split; [exact (Z eq_refl)|].
  exact (proj1 (X [("engine", 93.75)] "p1"%string Sample.voicedThenSilent initialState
                  Sample.cachedTimeline eq_refl eq_refl)).
Defined.

(** C2 as stated fails: with the playhead at tick 0, a finite value, and
    nothing cached, the frame completes and the closing gesture's weight is
    (0 - 0 - 480 * 3) / 24 = -60. *)
Lemma expression_weight_below_zero :
  exists out,
    snd (Sample.render (Sample.emptyFrame 0) initialState) = inr out
    /\ Number_isFinite (playheadTicks (Sample.emptyFrame 0)) = true
    /\ In (config.motion.last.expression, (-60)%float) (weights out)
    /\ (0 <=? -60) = false.
Proof.
  eexists. split; [vm_compute; reflexivity|].
  split; [reflexivity|]. split; [|reflexivity].
  simpl. auto 10.
Qed.

(** The hypotheses of C2, as the code has it, hold at that frame. *)
Lemma expression_weights_range_witness :
  (-60 = Math_min 1 ((0 - 0 - 480 * 3) / 24)
   /\ (1 <? -60) = false)
  /\ (0 <=? 1) && (1 <=? 1) = true.
Proof.
  pose proof (expression_weights_range
                Sample.secondToTick Sample.frequencyToNoteNumber
                Sample.Math_sin Sample.Math_cos
                (Sample.emptyFrame 0) initialState
                (fst (Sample.render (Sample.emptyFrame 0) initialState))
                (Sample.outputOf (Sample.render (Sample.emptyFrame 0) initialState))
                eq_refl eq_refl) as H.
  split.
  - apply (H config.motion.last.expression (-60)); [|reflexivity].
    vm_compute. auto 10.
  - apply (H "neutral"%string 1); [|discriminate].
    vm_compute. auto 10.
Defined.

(** C1 at a concrete frame: the canvas is set up, the store is empty, the
    state is the initial one and [playheadTicks] is [NaN]; the frame
    completes, the sway phase is taken as 0, and the weight map carries
    [NaN]. *)
Example render_nan_sample :
  exists out,
    snd (Sample.render (Sample.emptyFrame nan) initialState) = inr out
    /\ weights out
       = [("aa"%string, 0); ("ih"%string, 0); ("ou"%string, 0); ("ee"%string, 0);
          ("oh"%string, 0); ("Hauu"%string, 0); ("Wink_L"%string, nan);
          ("neutral"%string, 1)]
    /\ Number_isFinite nan = false.
Proof.
  eexists. split; [vm_compute; reflexivity|]. split; reflexivity.
Qed.


(** The tie-break of the lookup at a concrete cache: tick 1164.8 is both the
    end of the section "a" and the start of the trailing "pau" of "p1"; the
    lookup answers "a".  One tick past the timeline it answers the fallback. *)
Example searchSection_boundary :
  phonemeString (searchSection (frameMap Sample.cachedState) 1164.8) = "a"%string
  /\ searchSection (frameMap Sample.cachedState) 1268 = fallbackSection
  /\ enclosesSections (frameMap Sample.cachedState) = true.
Proof.
  repeat split; vm_compute; reflexivity.
Qed.

(* ================================================================== *)
(** ** Further properties of [render] *)

Section MapShape.
Context {V : Type}.

Lemma has_set (k k' : string) (v : V) (m : JSMap.t V) :
  JSMap.has k (JSMap.set k' v m) = String.eqb k' k || JSMap.has k m.
Proof.
  unfold JSMap.has. destruct (String.eqb k' k) eqn:E.
  - apply String.eqb_eq in E. subst k'. now rewrite get_set_same.
  - apply String.eqb_neq in E. now rewrite get_set_other.
Qed.

Lemma has_filter_keys (p : string -> bool) (k : string) (m : JSMap.t V) :
  JSMap.has k (filter (fun kv => p (fst kv)) m) = p k && JSMap.has k m.
Proof.
  unfold JSMap.has. rewrite get_filter_keys. now destruct (p k).
Qed.

Lemma has_In_keys (k : string) (m : JSMap.t V) :
  JSMap.has k m = true <-> In k (JSMap.keys m).
Proof.
  unfold JSMap.has, JSMap.keys.
  induction m as [|[k0 v0] r IH]; cbn -[String.eqb].
  - split; [discriminate|intros []].
  - destruct (String.eqb k0 k) eqn:E.
    + apply String.eqb_eq in E. subst k0. split; auto.
    + apply String.eqb_neq in E. rewrite IH. split; [auto|].
      intros [H|H]; [contradiction|assumption].
Qed.

(** Setting a key the map does not have appends the entry. *)
Lemma set_absent (k : string) (v : V) (m : JSMap.t V) :
  JSMap.get k m = None -> JSMap.set k v m = m ++ [(k, v)].
Proof.
  induction m as [|[k0 v0] r IH]; cbn -[String.eqb]; [reflexivity|].
  destruct (String.eqb k0 k); [discriminate|]. intros H. now rewrite IH.
Qed.

Lemma get_app (k : string) (m1 m2 : JSMap.t V) :
  JSMap.get k (m1 ++ m2)
  = match JSMap.get k m1 with Some v => Some v | None => JSMap.get k m2 end.
Proof.
  induction m1 as [|[k0 v0] r IH]; cbn -[String.eqb]; [reflexivity|].
  destruct (String.eqb k0 k); [reflexivity|exact IH].
Qed.

Lemma has_app (k : string) (m1 m2 : JSMap.t V) :
  JSMap.has k (m1 ++ m2) = JSMap.has k m1 || JSMap.has k m2.
Proof.
  unfold JSMap.has. rewrite get_app. now destruct (JSMap.get k m1).
Qed.

Lemma keys_app (m1 m2 : JSMap.t V) :
  JSMap.keys (m1 ++ m2) = JSMap.keys m1 ++ JSMap.keys m2.
Proof. apply map_app. Qed.

Lemma values_app (m1 m2 : JSMap.t V) :
  JSMap.values (m1 ++ m2) = JSMap.values m1 ++ JSMap.values m2.
Proof. apply map_app. Qed.

Lemma In_has (k : string) (v : V) (m : JSMap.t V) :
  In (k, v) m -> JSMap.has k m = true.
Proof.
  intros H. apply has_In_keys. unfold JSMap.keys.
  change k with (fst (k, v)). now apply in_map.
Qed.

Lemma NoDup_keys_filter (p : string * V -> bool) (m : JSMap.t V) :
  NoDup (JSMap.keys m) -> NoDup (JSMap.keys (filter p m)).
Proof.
  unfold JSMap.keys. induction m as [|x r IH]; simpl; [auto|].
  intros H. inversion H as [|? ? Hx Hr]; subst.
  destruct (p x); simpl; [|auto]. constructor; [|auto].
  intros Hin. apply Hx. apply in_map_iff in Hin. destruct Hin as [y [E Hy]].
  apply filter_In in Hy. apply in_map_iff. exists y. tauto.
Qed.

End MapShape.

Section FrameDriver.

Variable secondToTick : number -> list (option Tempo) -> number -> number.
Variable frequencyToNoteNumber : option number -> number.
Variable Math_sin : number -> number.
Variable Math_cos : number -> number.

Local Abbreviation updatePhrase_ := (updatePhrase secondToTick frequencyToNoteNumber).
Local Abbreviation updatePhrases_ := (updatePhrases secondToTick frequencyToNoteNumber).
Local Abbreviation poseStep_ := (poseStep Math_sin Math_cos).
Local Abbreviation render_ := (render secondToTick frequencyToNoteNumber Math_sin Math_cos).

(** X1: [render] throws an [Error] exactly when one of its six checks
    fails, and then it has touched no variable; a canvas of width 0 (or
    [NaN]) fails the first check like an undefined one.  With the six checks
    passed, the only exception left is the [TypeError] of the phrase loop. *)
Theorem render_context_checks (frame : Frame) (st : State) :
  (contextReady frame = false ->
   fst (render_ frame st) = st
   /\ exists message, snd (render_ frame st) = inl (Error message))
  /\ (contextReady frame = true ->
      forall message, snd (render_ frame st) <> inl (Error message))
  /\ (falsy_or_undefined (canvasWidth frame) = true ->
      render_ frame st = (st, inl (Error "canvasWidth is undefined.")))
  /\ (canvasWidth frame = Some 0 -> falsy_or_undefined (canvasWidth frame) = true).
Proof.
  assert (Z : canvasWidth frame = Some 0 -> falsy_or_undefined (canvasWidth frame) = true).
  { intros E. rewrite E. reflexivity. }
  cut ((contextReady frame = false ->
        fst (render_ frame st) = st
        /\ exists message, snd (render_ frame st) = inl (Error message))
       /\ (contextReady frame = true ->
           forall message, snd (render_ frame st) <> inl (Error message))
       /\ (falsy_or_undefined (canvasWidth frame) = true ->
           render_ frame st = (st, inl (Error "canvasWidth is undefined."))));
    [tauto|]. clear Z.
  unfold contextReady, render.
  destruct (falsy_or_undefined (canvasWidth frame)); cbn [negb andb];
    [split; [intros _; split; [reflexivity|eexists; reflexivity]|split; [discriminate|reflexivity]]|].
  destruct (falsy_or_undefined (canvasHeight frame)); cbn [negb andb];
    [split; [intros _; split; [reflexivity|eexists; reflexivity]|split; discriminate]|].
  destruct (renderer frame); cbn [negb andb];
    [|split; [intros _; split; [reflexivity|eexists; reflexivity]|split; discriminate]].
  destruct (scene frame); cbn [negb andb];
    [|split; [intros _; split; [reflexivity|eexists; reflexivity]|split; discriminate]].
  destruct (camera frame); cbn [negb andb];
    [|split; [intros _; split; [reflexivity|eexists; reflexivity]|split; discriminate]].
  destruct (clock frame); cbn [negb andb];
    [|split; [intros _; split; [reflexivity|eexists; reflexivity]|split; discriminate]].
  split; [discriminate|]. split; [|discriminate].
  intros _ message.
    assert (T : forall ps s0 e, snd (updatePhrases_ (engineManifests frame) ps s0) = Some e ->
                                e = TypeError).
    { induction ps as [|[k p] rest IH]; intros s0 e; simpl; [discriminate|].
      destruct (updatePhrase_ (engineManifests frame) k p s0) as [s1 [e1|]] eqn:U.
      - simpl. intros H. injection H as <-.
        unfold updatePhrase in U.
        destruct (singer p); [|discriminate].
        destruct (query p); [|discriminate].
        destruct (startTime p); [|discriminate].
        destruct (negb (truthy _)); [discriminate|].
        destruct (JSMap.get _ (engineManifests frame)); [|congruence].
        destruct (JSMap.get k _); [discriminate|].
        destruct (hd_error _); [|congruence].
        destruct (nth_error _ _); [|congruence].
        destruct (resolveSections _ _ _ _ _ _ _ _ _). discriminate.
      - apply IH. }
    destruct (updatePhrases_ _ _ _) as [s1 [e|]] eqn:U.
    + cbn [snd]. pose proof (T (phrases frame) (pruneStep (phrases frame) st) e) as Te.
      rewrite U in Te. rewrite (Te eq_refl). discriminate.
    + destruct (poseStep_ _ s1). discriminate.
Qed.

Lemma searchSections_nil (ps : list FramePhoneme) :
  searchSections ps = [] <-> ps = [].
Proof.
  unfold searchSections. destruct ps; simpl; split; congruence.
Qed.

Lemma nth_error_last_some {A : Type} (l : list A) :
  l <> [] -> nth_error l (List.length l - 1) <> None.
Proof.
  intros H. apply nth_error_Some. destruct l; [congruence|]. simpl. lia.
Qed.

(** The five ways [updatePhrase] can go. *)
Lemma updatePhrase_outcome engineManifests k phrase st :
  let r := updatePhrase_ engineManifests k phrase st in
  let st1 := set_lastTpqn (tpqn phrase) st in
  (isReady phrase = false /\ r = (st, None))
  \/ (isReady phrase = true /\ frameRateOf engineManifests phrase = None
      /\ r = (st1, Some TypeError))
  \/ (isReady phrase = true /\ frameRateOf engineManifests phrase <> None
      /\ JSMap.has k (frameMap st) = true /\ r = (st1, None))
  \/ (isReady phrase = true /\ frameRateOf engineManifests phrase <> None
      /\ JSMap.has k (frameMap st) = false /\ phonemesOf phrase = []
      /\ r = (st1, Some TypeError))
  \/ (isReady phrase = true /\ frameRateOf engineManifests phrase <> None
      /\ JSMap.has k (frameMap st) = false /\ phonemesOf phrase <> []
      /\ exists oneframe,
          r = (set_frameMap (frameMap st ++ [(k, oneframe)])
                 (set_lastEndTick
                    (fold_left Math_max (voicedEndTicks oneframe) (lastEndTick st)) st1),
               None)).
Proof.
  cbv zeta. unfold updatePhrase, isReady, frameRateOf, phonemesOf, JSMap.has.
  destruct (singer phrase) as [sg|]; [|now left].
  destruct (query phrase) as [q|]; [|now left].
  destruct (startTime phrase) as [t0|]; [|now left].
  destruct (truthy t0); cbn [negb]; [right|now left].
  destruct (JSMap.get (engineId sg) engineManifests) as [frameRate|]; [right|now left].
  cbn [frameMap set_lastTpqn].
  destruct (JSMap.get k (frameMap st)) eqn:G; [left; repeat split; congruence|right].
  destruct (phonemes q) as [|p0 ps] eqn:P.
  { left. repeat split; congruence. }
  right. split; [reflexivity|]. split; [congruence|]. split; [reflexivity|].
  split; [congruence|].
  assert (Hne : searchSections (p0 :: ps) <> []).
  { intros H. apply searchSections_nil in H. discriminate. }
  destruct (hd_error (searchSections (p0 :: ps))) as [first|] eqn:Hd;
    [|destruct (searchSections (p0 :: ps)); [congruence|discriminate]].
  destruct (nth_error (searchSections (p0 :: ps)) _) as [final|] eqn:Hl;
    [|exfalso; revert Hl; now apply nth_error_last_some].
  pose proof (resolveSections_lastEndTick secondToTick frequencyToNoteNumber
                t0 frameRate [hd_error (tempos phrase)]
                (tpqn phrase) (f0 q) (searchSections (p0 :: ps))
                (lastEndTick (set_lastTpqn (tpqn phrase) st))) as L.
  destruct (resolveSections _ _ _ _ _ _ _ _ _) as [ss' l'].
  cbn [fst snd] in L. cbn [lastEndTick set_lastTpqn] in L.
  subst l'. rewrite (set_absent _ _ _ G).
  match goal with
  | |- exists o, (set_frameMap (_ ++ [(_, ?f)]) _, _) = _ => exists f
  end.
  reflexivity.
Qed.

(** X2: [updatePhrase] throws, and then always a [TypeError], exactly for a
    ready phrase whose engine the store has no manifest for (cached or not),
    or whose phoneme list is empty while it has no timeline yet.  By then
    [lastTpqn] is the phrase's, and the cache and [lastEndTick] are
    untouched. *)
Theorem updatePhrase_throws engineManifests k phrase st :
  (snd (updatePhrase_ engineManifests k phrase st) <> None <->
   isReady phrase = true
   /\ (frameRateOf engineManifests phrase = None
       \/ (JSMap.has k (frameMap st) = false /\ phonemesOf phrase = [])))
  /\ (snd (updatePhrase_ engineManifests k phrase st) <> None ->
      updatePhrase_ engineManifests k phrase st
      = (set_lastTpqn (tpqn phrase) st, Some TypeError)).
Proof.
  pose proof (updatePhrase_outcome engineManifests k phrase st) as O. cbv zeta in O.
  destruct O as [[R E]|[[R [F E]]|[[R [F [H E]]]|[[R [F [H [P E]]]]|[R [F [H [P [f E]]]]]]]]];
    rewrite E; cbn [snd].
  - split; [split|]; [intros X; now contradiction X|intros [X _]; congruence
                      |intros X; now contradiction X].
  - split; [split|]; [auto|discriminate|reflexivity].
  - split; [split|]; [intros X; now contradiction X
                      |intros [_ [X|[X _]]]; congruence
                      |intros X; now contradiction X].
  - split; [split|]; [auto|discriminate|reflexivity].
  - split; [split|]; [intros X; now contradiction X
                      |intros [_ [X|[_ X]]]; congruence
                      |intros X; now contradiction X].
Qed.

(** What the phrase loop does to the variables: the cache grows at its end
    by the timelines of ready phrases that had none, each key once, and
    [lastEndTick] is the running maximum over their voiced end ticks. *)
Lemma updatePhrases_appends engineManifests :
  forall phrases st,
  exists new,
    frameMap (fst (updatePhrases_ engineManifests phrases st)) = frameMap st ++ new
    /\ lastEndTick (fst (updatePhrases_ engineManifests phrases st))
       = fold_left Math_max (flat_map voicedEndTicks (JSMap.values new)) (lastEndTick st)
    /\ isEnd (fst (updatePhrases_ engineManifests phrases st)) = isEnd st
    /\ lastRot (fst (updatePhrases_ engineManifests phrases st)) = lastRot st
    /\ (forall k, In k (JSMap.keys new) ->
          JSMap.has k (frameMap st) = false
          /\ exists phrase, In (k, phrase) phrases /\ isReady phrase = true
                            /\ phonemesOf phrase <> []
                            /\ frameRateOf engineManifests phrase <> None)
    /\ NoDup (JSMap.keys new).
Proof.
  intros phrases. induction phrases as [|[k p] rest IH]; intros st.
  { exists []. rewrite app_nil_r. simpl.
    do 4 (split; [reflexivity|]). split; [intros k0 []|constructor]. }
  simpl.
  pose proof (updatePhrase_outcome engineManifests k p st) as O. cbv zeta in O.
  destruct O as [[R E]|[[R [F E]]|[[R [F [H E]]]|[[R [F [H [P E]]]]|[R [F [H [P [f E]]]]]]]]];
    rewrite E.
  - destruct (IH st) as [new [A [B [C [D [K N]]]]]]. exists new.
    split; [exact A|]. split; [exact B|]. split; [exact C|]. split; [exact D|].
    split; [|exact N]. intros k0 Hk0. destruct (K k0 Hk0) as [Hh [q [Hq Q]]].
    split; [exact Hh|]. exists q. split; [now right|exact Q].
  - exists []. rewrite app_nil_r. cbn.
    do 4 (split; [reflexivity|]). split; [intros k0 []|constructor].
  - destruct (IH (set_lastTpqn (tpqn p) st)) as [new [A [B [C [D [K N]]]]]]. exists new.
    split; [exact A|]. split; [exact B|]. split; [exact C|]. split; [exact D|].
    split; [|exact N]. intros k0 Hk0. destruct (K k0 Hk0) as [Hh [q [Hq Q]]].
    split; [exact Hh|]. exists q. split; [now right|exact Q].
  - exists []. rewrite app_nil_r. cbn.
    do 4 (split; [reflexivity|]). split; [intros k0 []|constructor].
  - match goal with
    | |- context [updatePhrases _ _ _ rest ?s] =>
        destruct (IH s) as [new [A [B [C [D [K N]]]]]]
    end.
    exists ((k, f) :: new).
    cbn [frameMap lastEndTick isEnd lastRot set_frameMap set_lastEndTick set_lastTpqn]
      in A, B, C, D, K.
    rewrite <- app_assoc in A. cbn [app] in A.
    split; [exact A|]. split.
    { rewrite B. cbn [JSMap.values map flat_map]. now rewrite fold_left_app. }
    split; [exact C|]. split; [exact D|]. split.
    + intros k0 [<-|Hk0].
      * split; [exact H|]. exists p. split; [now left|auto].
      * destruct (K k0 Hk0) as [Hh [q [Hq Q]]]. rewrite has_app in Hh.
        apply orb_false_iff in Hh. split; [tauto|].
        exists q. split; [now right|exact Q].
    + cbn [JSMap.keys map fst]. constructor; [|exact N].
      intros Hin. destruct (K k Hin) as [Hh _]. rewrite has_app in Hh.
      apply orb_false_iff in Hh. destruct Hh as [_ Hh].
      unfold JSMap.has in Hh. cbn -[String.eqb] in Hh.
      now rewrite String.eqb_refl in Hh.
Qed.

Lemma pruneStep_shape phrases st :
  frameMap (pruneStep phrases st)
  = filter (fun kv => JSMap.has (fst kv) phrases) (frameMap st)
  /\ lastTpqn (pruneStep phrases st) = lastTpqn st
  /\ isEnd (pruneStep phrases st) = isEnd st
  /\ lastRot (pruneStep phrases st) = lastRot st.
Proof.
  unfold pruneStep. rewrite pruneFrameMap_filter. destruct (existsb _ _); auto.
Qed.

(** With the six checks passed, the cache [render] leaves is the pruned
    cache followed by what the phrase loop appended. *)
Lemma render_cache frame st :
  contextReady frame = true ->
  frameMap (fst (render_ frame st))
  = frameMap (fst (updatePhrases_ (engineManifests frame) (phrases frame)
                     (pruneStep (phrases frame) st)))
  /\ lastEndTick (fst (render_ frame st))
     = lastEndTick (fst (updatePhrases_ (engineManifests frame) (phrases frame)
                           (pruneStep (phrases frame) st))).
Proof.
  unfold contextReady, render. intros C.
  repeat (apply andb_true_iff in C; destruct C as [C ?]).
  apply negb_true_iff in C.
  repeat match goal with H : negb _ = true |- _ => apply negb_true_iff in H end.
  repeat match goal with H : _ = _ |- _ => rewrite H end. cbn [negb].
  destruct (updatePhrases_ _ _ _) as [s1 [e|]]; [auto|].
  pose proof (poseStep_frameMap Math_sin Math_cos (playheadTicks frame) s1) as [A [B _]].
  destruct (poseStep_ _ s1) as [s2 pose]. auto.
Qed.

(** X3: with the six checks passed, after [render] (completed or thrown)
    every cached key is a key of the store, it was cached before or belongs
    to a ready phrase of the store with a manifest and phonemes, and no key
    is cached twice if none was. *)
Theorem render_cache_within_store (frame : Frame) (st : State) :
  contextReady frame = true ->
  (forall k, JSMap.has k (frameMap (fst (render_ frame st))) = true ->
     JSMap.has k (phrases frame) = true
     /\ (JSMap.has k (frameMap st) = true
         \/ exists phrase, In (k, phrase) (phrases frame) /\ isReady phrase = true
                           /\ phonemesOf phrase <> []
                           /\ frameRateOf (engineManifests frame) phrase <> None))
  /\ (NoDup (JSMap.keys (frameMap st)) ->
      NoDup (JSMap.keys (frameMap (fst (render_ frame st))))).
Proof.
  intros C. destruct (render_cache frame st C) as [-> _].
  destruct (updatePhrases_appends (engineManifests frame) (phrases frame)
              (pruneStep (phrases frame) st)) as [new [A [_ [_ [_ [K N]]]]]].
  rewrite A. destruct (pruneStep_shape (phrases frame) st) as [P _]. rewrite P in *.
  split.
  - intros k H. rewrite has_app in H. apply orb_true_iff in H. destruct H as [H|H].
    + rewrite (has_filter_keys (fun k => JSMap.has k (phrases frame))) in H.
      apply andb_true_iff in H. tauto.
    + apply has_In_keys in H. destruct (K k H) as [_ [q [Hq Q]]].
      split; [eapply In_has; eassumption|]. right. exists q. auto.
  - intros D. rewrite keys_app.
    apply NoDup_app; [now apply NoDup_keys_filter|exact N|].
    intros k H1 H2. destruct (K k H2) as [Hh _].
    apply has_In_keys in H1. congruence.
Qed.

Lemma updatePhrases_grows engineManifests phrases st k :
  JSMap.has k (frameMap st) = true ->
  JSMap.has k (frameMap (fst (updatePhrases_ engineManifests phrases st))) = true.
Proof.
  intros H. destruct (updatePhrases_appends engineManifests phrases st) as [new [A _]].
  rewrite A, has_app, H. reflexivity.
Qed.

(** A loop that did not throw has cached every ready phrase it went over. *)
Lemma updatePhrases_complete engineManifests :
  forall phrases st,
    snd (updatePhrases_ engineManifests phrases st) = None ->
    forall k phrase, In (k, phrase) phrases -> isReady phrase = true ->
      JSMap.has k (frameMap (fst (updatePhrases_ engineManifests phrases st))) = true.
Proof.
  intros phrases. induction phrases as [|[k0 p0] rest IH]; intros st N k p Hin R;
    [destruct Hin|].
  simpl in N |- *.
  pose proof (updatePhrase_outcome engineManifests k0 p0 st) as O. cbv zeta in O.
  destruct O as [[R0 E]|[[R0 [F E]]|[[R0 [F [H E]]]|[[R0 [F [H [P E]]]]|[R0 [F [H [P [f E]]]]]]]]];
    rewrite E in N |- *; try discriminate N.
  - destruct Hin as [Q|Hin]; [injection Q as <- <-; congruence|]. now apply (IH st N k p).
  - destruct Hin as [Q|Hin]; [injection Q as <- <-|now apply (IH _ N k p)].
    apply updatePhrases_grows. exact H.
  - destruct Hin as [Q|Hin]; [injection Q as <- <-|now apply (IH _ N k p)].
    apply updatePhrases_grows. cbn [frameMap set_frameMap].
    rewrite has_app. unfold JSMap.has at 2. cbn -[String.eqb].
    rewrite String.eqb_refl. apply orb_true_r.
Qed.

Lemma render_completes_context frame st st' out :
  render_ frame st = (st', inr out) -> contextReady frame = true.
Proof.
  unfold render, contextReady.
  destruct (falsy_or_undefined (canvasWidth frame)); [discriminate|].
  destruct (falsy_or_undefined (canvasHeight frame)); [discriminate|].
  destruct (renderer frame); [|discriminate]. destruct (scene frame); [|discriminate].
  destruct (camera frame); [|discriminate]. destruct (clock frame); [|discriminate].
  reflexivity.
Qed.

(** X4: after a frame that completes, the cached keys are exactly the keys
    of the store that were cached before or whose phrase is ready. *)
Theorem render_cache_exact (frame : Frame) (st st' : State) (out : Output) :
  render_ frame st = (st', inr out) ->
  forall k,
    JSMap.has k (frameMap st') = true <->
    JSMap.has k (phrases frame) = true
    /\ (JSMap.has k (frameMap st) = true
        \/ exists phrase, In (k, phrase) (phrases frame) /\ isReady phrase = true).
Proof.
  intros R k.
  pose proof (render_completes_context _ _ _ _ R) as C.
  destruct (render_cache frame st C) as [Fm _]. rewrite R in Fm. cbn [fst] in Fm.
  destruct (render_completes secondToTick frequencyToNoteNumber Math_sin Math_cos
              _ _ _ _ R) as [s1 [pose [U _]]].
  destruct (pruneStep_shape (phrases frame) st) as [P _].
  rewrite Fm. split.
  - intros H.
    destruct (updatePhrases_appends (engineManifests frame) (phrases frame)
                (pruneStep (phrases frame) st)) as [new [A [_ [_ [_ [K _]]]]]].
    rewrite A, P, has_app in H. apply orb_true_iff in H. destruct H as [H|H].
    + rewrite (has_filter_keys (fun k => JSMap.has k (phrases frame))) in H.
      apply andb_true_iff in H. tauto.
    + apply has_In_keys in H. destruct (K k H) as [_ [q [Hq [Q _]]]].
      split; [eapply In_has; eassumption|]. right. exists q. auto.
  - intros [Hs [Hc|[q [Hq Q]]]].
    + apply updatePhrases_grows. rewrite P.
      rewrite (has_filter_keys (fun k => JSMap.has k (phrases frame))).
      now rewrite Hs, Hc.
    + apply (updatePhrases_complete (engineManifests frame) (phrases frame)
               (pruneStep (phrases frame) st)) with (phrase := q); auto.
      now rewrite U.
Qed.

Lemma pruneStep_nothing_dropped phrases st :
  existsb (fun k => negb (JSMap.has k phrases)) (JSMap.keys (frameMap st)) = false ->
  pruneStep phrases st = st.
Proof.
  intros H. unfold pruneStep. rewrite pruneFrameMap_filter, H.
  replace (filter _ (frameMap st)) with (frameMap st); [now destruct st|].
  symmetry. apply forallb_filter_id. apply forallb_forall. intros [k v] Hin.
  cbn [fst]. destruct (JSMap.has k phrases) eqn:E; [reflexivity|].
  assert (X : existsb (fun k => negb (JSMap.has k phrases)) (JSMap.keys (frameMap st)) = true).
  { apply existsb_exists. exists k. split.
    - unfold JSMap.keys. change k with (fst (k, v)). now apply in_map.
    - now rewrite E. }
  congruence.
Qed.

(** A frame that drops no timeline appends to the cache and takes
    [lastEndTick] as the running maximum over what it appended. *)
Lemma render_appends frame st :
  contextReady frame = true ->
  existsb (fun k => negb (JSMap.has k (phrases frame))) (JSMap.keys (frameMap st)) = false ->
  exists new,
    frameMap (fst (render_ frame st)) = frameMap st ++ new
    /\ lastEndTick (fst (render_ frame st))
       = fold_left Math_max (flat_map voicedEndTicks (JSMap.values new)) (lastEndTick st).
Proof.
  intros C D. destruct (render_cache frame st C) as [-> ->].
  rewrite (pruneStep_nothing_dropped _ _ D).
  destruct (updatePhrases_appends (engineManifests frame) (phrases frame) st)
    as [new [A [B _]]].
  exists new. auto.
Qed.

(** X5: in a frame that passes the six checks and drops no timeline, the
    cache keeps its entries in place and grows only at its end, and
    [lastEndTick] becomes the running [Math.max] of its old value and the
    voiced end ticks of the appended timelines; so, [NaN] apart, it does not
    decrease, and it stays as it is when nothing is appended. *)
Theorem render_without_drop (frame : Frame) (st : State) :
  contextReady frame = true ->
  existsb (fun k => negb (JSMap.has k (phrases frame))) (JSMap.keys (frameMap st)) = false ->
  exists new,
    frameMap (fst (render_ frame st)) = frameMap st ++ new
    /\ lastEndTick (fst (render_ frame st))
       = fold_left Math_max (flat_map voicedEndTicks (JSMap.values new)) (lastEndTick st)
    /\ (new = [] -> lastEndTick (fst (render_ frame st)) = lastEndTick st)
    /\ (is_nan (lastEndTick st) = false ->
        forallb (fun e => negb (is_nan e)) (flat_map voicedEndTicks (JSMap.values new)) = true ->
        (lastEndTick st <=? lastEndTick (fst (render_ frame st))) = true).
Proof.
  intros C D. destruct (render_appends frame st C D) as [new [A B]].
  exists new. split; [exact A|]. split; [exact B|]. split.
  - intros ->. rewrite B. reflexivity.
  - intros Hn Hl. rewrite B.
    exact (proj1 (running_max_spec (fun e => e) _ (lastEndTick st) Hn Hl)).
Qed.

(** X6: [cleanUp] empties the cache and leaves [lastTpqn], [lastEndTick],
    [isEnd] and [lastRot] as they were; in the next frame nothing is dropped,
    so [lastEndTick] is not rescanned: it is the running [Math.max] of the
    value from before [cleanUp] and the voiced end ticks of the timelines the
    frame caches. *)
Theorem cleanUp_keeps_lastEndTick (frame : Frame) (st : State) :
  contextReady frame = true ->
  frameMap (cleanUp st) = []
  /\ lastTpqn (cleanUp st) = lastTpqn st
  /\ lastEndTick (cleanUp st) = lastEndTick st
  /\ isEnd (cleanUp st) = isEnd st
  /\ lastRot (cleanUp st) = lastRot st
  /\ lastEndTick (fst (render_ frame (cleanUp st)))
     = fold_left Math_max
         (flat_map voicedEndTicks
            (JSMap.values (frameMap (fst (render_ frame (cleanUp st))))))
         (lastEndTick st)
  /\ (JSMap.values (frameMap (fst (render_ frame (cleanUp st)))) = [] ->
      lastEndTick (fst (render_ frame (cleanUp st))) = lastEndTick st).
Proof.
  intros C. do 5 (split; [reflexivity|]).
  destruct (render_appends frame (cleanUp st) C eq_refl) as [new [A B]].
  cbn [frameMap cleanUp set_frameMap app lastEndTick] in A, B.
  rewrite A. split; [exact B|].
  intros E. rewrite B, E. reflexivity.
Qed.

Lemma last_cons_default {A : Type} (a d : A) (l : list A) :
  List.last (a :: l) d = List.last l a.
Proof.
  revert a d. induction l as [|b r IH]; intros a d; [reflexivity|].
  change (List.last (a :: b :: r) d) with (List.last (b :: r) d).
  now rewrite !IH.
Qed.

Lemma updatePhrases_lastTpqn engineManifests :
  forall phrases st,
    snd (updatePhrases_ engineManifests phrases st) = None ->
    lastTpqn (fst (updatePhrases_ engineManifests phrases st))
    = List.last (map tpqn (filter isReady (JSMap.values phrases))) (lastTpqn st).
Proof.
  intros phrases. induction phrases as [|[k p] rest IH]; intros st N; [reflexivity|].
  simpl in N |- *.
  pose proof (updatePhrase_outcome engineManifests k p st) as O. cbv zeta in O.
  destruct O as [[R E]|[[R [F E]]|[[R [F [H E]]]|[[R [F [H [P E]]]]|[R [F [H [P [f E]]]]]]]]];
    rewrite E in N |- *; try discriminate N; rewrite R.
  - now apply IH.
  - rewrite (IH _ N). cbn [map]. now rewrite last_cons_default.
  - rewrite (IH _ N). cbn [map]. now rewrite last_cons_default.
Qed.

(** X7: after a frame that completes, [lastTpqn] is the [tpqn] of the last
    ready phrase in the store's order, whether that phrase was cached in this
    frame or long before; with no ready phrase it is unchanged. *)
Theorem render_lastTpqn (frame : Frame) (st st' : State) (out : Output) :
  render_ frame st = (st', inr out) ->
  lastTpqn st'
  = List.last (map tpqn (filter isReady (JSMap.values (phrases frame)))) (lastTpqn st).
Proof.
  intros R.
  destruct (render_completes secondToTick frequencyToNoteNumber Math_sin Math_cos
              _ _ _ _ R) as [s1 [pose [U [P _]]]].
  pose proof (poseStep_frameMap Math_sin Math_cos (playheadTicks frame) s1) as [_ [_ T]].
  rewrite P in T. cbn [fst] in T. rewrite T.
  pose proof (updatePhrases_lastTpqn (engineManifests frame) (phrases frame)
                (pruneStep (phrases frame) st)) as L.
  rewrite U in L. cbn [fst snd] in L. rewrite (L eq_refl).
  now destruct (pruneStep_shape (phrases frame) st) as [_ [-> _]].
Qed.

End FrameDriver.

(* ================================================================== *)
(** ** The shape of a cached timeline *)

Section NumberZero.

(** Subtracting 0 changes no number. *)
Lemma sub_zero_r (x : number) : x - 0 = x.
Proof.
  apply Prim2SF_inj. rewrite sub_spec.
  change (Prim2SF 0) with (S754_zero false).
  destruct (Prim2SF x) as [[]|[]| |[] m e]; reflexivity.
Qed.

Lemma truthy_shape (x : number) :
  truthy x = true ->
  (exists s, Prim2SF x = S754_infinity s) \/ (exists s m e, Prim2SF x = S754_finite s m e).
Proof.
  unfold truthy. intros H. apply negb_true_iff, orb_false_iff in H.
  destruct H as [Hn Hz]. apply NumberOrder.is_nan_false in Hn.
  unfold is_zero in Hz. rewrite eqb_spec in Hz.
  change (Prim2SF zero) with (S754_zero false) in Hz.
  destruct (Prim2SF x) as [s|s| |s m e]; eauto.
  - destruct s; discriminate.
  - congruence.
Qed.

(** 0 divided by a number that is neither 0 nor [NaN] is a zero. *)
Lemma div_zero_l (r : number) :
  truthy r = true -> 0 / r = 0 \/ 0 / r = (-0)%float.
Proof.
  intros H.
  assert (Z : exists s, Prim2SF (0 / r) = S754_zero s).
  { rewrite div_spec. change (Prim2SF 0) with (S754_zero false).
    destruct (truthy_shape r H) as [[s ->]|[s [m [e ->]]]]; simpl; eauto. }
  destruct Z as [[] Z]; [right|left]; apply Prim2SF_inj; rewrite Z; reflexivity.
Qed.

(** Adding a zero to a number that is neither 0 nor [NaN] changes nothing. *)
Lemma add_zero_r (t z : number) :
  truthy t = true -> z = 0 \/ z = (-0)%float -> t + z = t.
Proof.
  intros H Z. apply Prim2SF_inj. rewrite add_spec.
  destruct (truthy_shape t H) as [[s ->]|[s [m [e ->]]]];
    destruct Z as [->| ->]; reflexivity.
Qed.

End NumberZero.

Section TimelineShape.

Variable secondToTick : number -> list (option Tempo) -> number -> number.
Variable frequencyToNoteNumber : option number -> number.

Local Abbreviation updatePhrase_ := (updatePhrase secondToTick frequencyToNoteNumber).

Lemma Forall2_nth_error {A B : Type} (R : A -> B -> Prop) (l1 : list A) (l2 : list B) :
  Forall2 R l1 l2 ->
  forall i b, nth_error l2 i = Some b -> exists a, nth_error l1 i = Some a /\ R a b.
Proof.
  induction 1 as [|a b0 r1 r2 Hab _ IH]; intros [|i] b Hb; simpl in *; try discriminate.
  - injection Hb as <-. eauto.
  - eauto.
Qed.

Lemma resolveSections_resolved startTime frameRate tempos tpqn f0 :
  forall (ss : list PhonemeSection) (l : number),
    Forall2 (resolvedFrom secondToTick startTime frameRate tempos tpqn) ss
      (fst (resolveSections secondToTick frequencyToNoteNumber
              startTime frameRate tempos tpqn f0 ss l)).
Proof.
  induction ss as [|s rest IH]; intros l; [constructor|].
  cbn -[resolveExpression String.eqb].
  destruct (resolveExpression _ _) as [exp w].
  specialize (IH (if negb (String.eqb (phonemeString s) "pau")
                  then Math_max l (secondToTick (startTime + endFrame s / frameRate)
                                                tempos tpqn)
                  else l)).
  destruct (resolveSections _ _ _ _ _ _ _ _ _) as [rest' l'].
  cbn [fst] in *. constructor; [|exact IH]. unfold resolvedFrom. cbn. auto 10.
Qed.

(** The timeline [updatePhrase] inserts, spelled out. *)
Lemma updatePhrase_inserted engineManifests k phrase st tl :
  JSMap.get k (frameMap st) = None ->
  JSMap.get k (frameMap (fst (updatePhrase_ engineManifests k phrase st))) = Some tl ->
  exists singer' query' startTime' frameRate first final,
    singer phrase = Some singer' /\ query phrase = Some query'
    /\ startTime phrase = Some startTime' /\ truthy startTime' = true
    /\ JSMap.get (engineId singer') engineManifests = Some frameRate
    /\ hd_error (searchSections (phonemes query')) = Some first
    /\ nth_error (searchSections (phonemes query'))
                 (List.length (searchSections (phonemes query')) - 1) = Some final
    /\ frame_startFrame tl = startFrame first
    /\ frame_endFrame tl = endFrame final
    /\ frame_startTick tl
       = secondToTick startTime' [hd_error (tempos phrase)] (tpqn phrase)
    /\ frame_endTick tl
       = secondToTick (startTime' + (endFrame final - startFrame first) / frameRate)
                      [hd_error (tempos phrase)] (tpqn phrase)
    /\ Forall2 (resolvedFrom secondToTick startTime' frameRate
                  [hd_error (tempos phrase)] (tpqn phrase))
               (searchSections (phonemes query')) (sections tl).
Proof.
  intros G. unfold updatePhrase.
  destruct (singer phrase) as [sg|]; [|cbn; congruence].
  destruct (query phrase) as [q|]; [|cbn; congruence].
  destruct (startTime phrase) as [t0|]; [|cbn; congruence].
  destruct (truthy t0) eqn:T; cbn [negb]; [|cbn; congruence].
  destruct (JSMap.get (engineId sg) engineManifests) as [frameRate|] eqn:F;
    [|cbn; congruence].
  cbn [frameMap set_lastTpqn]. rewrite G.
  destruct (hd_error _) as [first|] eqn:Hd; [|cbn; congruence].
  destruct (nth_error _ _) as [final|] eqn:Hl; [|cbn; congruence].
  pose proof (resolveSections_resolved t0 frameRate [hd_error (tempos phrase)]
                (tpqn phrase) (f0 q) (searchSections (phonemes q))
                (lastEndTick (set_lastTpqn (tpqn phrase) st))) as R.
  destruct (resolveSections _ _ _ _ _ _ _ _ _) as [ss' l'].
  cbn [fst frameMap set_frameMap]. rewrite get_set_same. intros E. injection E as <-.
  exists sg, q, t0, frameRate, first, final. cbn. auto 20.
Qed.

(** X8: the timeline that [updatePhrase] caches for a phrase has one
    section per phoneme, with the frames and symbols of [searchSections];
    consecutive sections share their boundary tick; the timeline starts at
    frame 0 and ends at the tick where its last section ends; and, when the
    engine's frame rate is neither 0 nor [NaN], it starts at the tick where
    its first section starts. *)
Theorem cached_timeline_shape engineManifests k phrase st tl :
  JSMap.get k (frameMap st) = None ->
  JSMap.get k (frameMap (fst (updatePhrase_ engineManifests k phrase st))) = Some tl ->
  map (fun s => (startFrame s, frameLength s, endFrame s, phonemeString s)) (sections tl)
  = map (fun s => (startFrame s, frameLength s, endFrame s, phonemeString s))
        (searchSections (phonemesOf phrase))
  /\ (forall i s s',
        nth_error (sections tl) i = Some s -> nth_error (sections tl) (S i) = Some s' ->
        endTick s = startTick s')
  /\ frame_startFrame tl = 0
  /\ (exists first final,
        hd_error (sections tl) = Some first
        /\ nth_error (sections tl) (List.length (sections tl) - 1) = Some final
        /\ frame_endFrame tl = endFrame final
        /\ frame_endTick tl = endTick final
        /\ (forall frameRate, frameRateOf engineManifests phrase = Some frameRate ->
                              truthy frameRate = true ->
                              frame_startTick tl = startTick first)).
Proof.
  intros G H.
  destruct (updatePhrase_inserted engineManifests k phrase st tl G H)
    as [sg [q [t0 [r [first [final [Hs [Hq [Ht [T [F [Hd [Hl [A [B [C [D R]]]]]]]]]]]]]]]]].
  unfold phonemesOf, frameRateOf. rewrite Hq, Hs, F.
  assert (Z : startFrame first = 0).
  { apply (searchSections_from_hd (phonemes q) 0). exact Hd. }
  pose proof (Forall2_length R) as Len.
  split; [|split; [|split]].
  - clear -R. induction R as [|o s r1 r2 Hos _ IH]; [reflexivity|].
    cbn [map]. rewrite IH. destruct Hos as [-> [-> [-> [-> _]]]]. reflexivity.
  - intros i s s' Hi Hi'.
    destruct (Forall2_nth_error _ _ _ R i s Hi) as [o [Ho [_ [_ [_ [_ [_ E]]]]]]].
    destruct (Forall2_nth_error _ _ _ R (S i) s' Hi') as [o' [Ho' [_ [_ [_ [_ [E' _]]]]]]].
    rewrite E, E'. now rewrite (searchSections_from_next (phonemes q) 0 i o o' Ho Ho').
  - rewrite A. exact Z.
  - destruct (sections tl) as [|first' rest'] eqn:S.
    { destruct (searchSections (phonemes q)); discriminate. }
    destruct (nth_error (first' :: rest') (List.length (first' :: rest') - 1))
      as [final'|] eqn:Hl'.
    2:{ exfalso. revert Hl'. apply nth_error_Some. simpl. lia. }
    exists first', final'. split; [reflexivity|]. split; [reflexivity|].
    destruct (Forall2_nth_error _ _ _ R _ _ Hl') as [o [Ho [_ [_ [Ef [_ [_ Ee]]]]]]].
    rewrite <- Len in Ho. rewrite Hl in Ho. injection Ho as <-.
    destruct (Forall2_nth_error _ _ _ R 0%nat first' eq_refl)
      as [o0 [Ho0 [_ [_ [_ [_ [Es _]]]]]]].
    assert (o0 = first).
    { destruct (searchSections (phonemes q)); simpl in *; congruence. }
    subst o0.
    split; [congruence|]. split.
    + rewrite D, Ee, Z. now rewrite sub_zero_r.
    + intros frameRate Q Tr. injection Q as <-.
      rewrite C, Es, Z. now rewrite (add_zero_r t0 (0 / r) T (div_zero_l r Tr)).
Qed.

End TimelineShape.

(* ================================================================== *)
(** ** The lookup at a tick that is not a number *)

Lemma covers_nan (start stop : number) : covers start stop nan = true.
Proof.
  unfold covers. rewrite !ltb_spec. unfold SFltb.
  change (Prim2SF nan) with S754_nan. cbn [SFcompare].
  destruct (Prim2SF stop); reflexivity.
Qed.

(** X9: with [NaN] as the tick every range test of [searchSection] passes:
    the lookup answers the first section of the whole cache that is not
    silence, wherever its ticks lie, and the fallback only when the cache
    holds no such section. *)
Theorem searchSection_nan (frameMap : JSMap.t OneFrame) :
  searchSection frameMap nan
  = hd fallbackSection
       (filter (fun s => negb (String.eqb (phonemeString s) "pau"))
               (flat_map sections (JSMap.values frameMap))).
Proof.
  rewrite searchSection_first_candidate. unfold candidates. f_equal.
  induction (JSMap.values frameMap) as [|f rest IH]; [reflexivity|].
  cbn [flat_map]. rewrite covers_nan, filter_app, IH. f_equal.
  apply filter_ext. intros s. unfold activeIn. now rewrite covers_nan.
Qed.

(* ================================================================== *)
(** ** The easing curve *)

Lemma SFcompare_lt_le_trans (x y z : spec_float) :
  SFcompare x y = Some Lt -> SFle y z -> SFcompare x z = Some Lt.
Proof.
  unfold SFle.
  destruct x as [[]|[]| |[] mx ex], y as [[]|[]| |[] my ey], z as [[]|[]| |[] mz ez];
    simpl; try (intuition congruence); fold_pos_compare;
    destruct (Z.compare_spec ex ey), (Z.compare_spec ey ez), (Z.compare_spec ex ez);
    try lia; subst; try (intuition congruence);
    destruct (Pos.compare_spec mx my), (Pos.compare_spec my mz), (Pos.compare_spec mx mz);
    try lia; subst; simpl; try (intuition congruence).
Qed.

Lemma ltb_leb_trans (x y z : number) :
  (x <? y) = true -> (y <=? z) = true -> (x <? z) = true.
Proof.
  rewrite NumberOrder.leb_SFle, !ltb_spec. unfold SFltb. intros H L.
  destruct (SFcompare (Prim2SF x) (Prim2SF y)) as [[]|] eqn:E; try discriminate.
  now rewrite (SFcompare_lt_le_trans _ _ _ E L).
Qed.

Section Easing.

Variable Math_cos : number -> number.

Lemma ease_in_range (a b t : number) :
  (0 <=? a) = true -> (b <=? 1) = true ->
  (0 <=? t) && (t <? 1) = false ->
  (a <=? t) && (t <? b) = false.
Proof.
  intros Ha Hb H. apply not_true_is_false. intros C. apply andb_true_iff in C.
  destruct C as [C1 C2].
  rewrite (NumberOrder.leb_trans _ _ _ Ha C1), (ltb_leb_trans _ _ _ C2 Hb) in H.
  discriminate.
Qed.

(** X10: [ease] is -1 on [0, 0.25) and 1 on [0.5, 0.75), whatever
    [Math.cos] is, and it falls through to 1 for every argument outside
    [0, 1): 1 and above, negative numbers and [NaN]. *)
Theorem ease_flat_and_outside (t : number) :
  ((0 <=? t) && (t <? 0.25) = true -> ease Math_cos t = -1)
  /\ ((0.5 <=? t) && (t <? 0.75) = true -> ease Math_cos t = 1)
  /\ ((0 <=? t) && (t <? 1) = false -> ease Math_cos t = 1)
  /\ ease Math_cos nan = 1.
Proof.
  unfold ease, easeSections. cbn [ease_in x0 x1].
  split; [|split; [|split]].
  - intros H. now rewrite H.
  - intros H. pose proof H as H'. apply andb_true_iff in H'. destruct H' as [L U].
    assert (Q : (0.25 <=? t) = true) by (eapply NumberOrder.leb_trans; [|exact L]; reflexivity).
    rewrite (NumberOrder.leb_not_ltb _ _ Q), andb_false_r.
    rewrite (NumberOrder.leb_not_ltb _ _ L), andb_false_r.
    now rewrite H.
  - intros H.
    rewrite (ease_in_range 0 0.25 t eq_refl eq_refl H).
    rewrite (ease_in_range 0.25 0.5 t eq_refl eq_refl H).
    rewrite (ease_in_range 0.5 0.75 t eq_refl eq_refl H).
    rewrite (ease_in_range 0.75 1 t eq_refl eq_refl H).
    reflexivity.
  - reflexivity.
Qed.

End Easing.

(* ================================================================== *)
(** ** The ending sub-state and the output maps *)

Section BlenderOutput.

Variable secondToTick : number -> list (option Tempo) -> number -> number.
Variable frequencyToNoteNumber : option number -> number.
Variable Math_sin : number -> number.
Variable Math_cos : number -> number.

Local Abbreviation updatePhrases_ := (updatePhrases secondToTick frequencyToNoteNumber).
Local Abbreviation poseStep_ := (poseStep Math_sin Math_cos).
Local Abbreviation render_ := (render secondToTick frequencyToNoteNumber Math_sin Math_cos).

(** What [poseStep] does to the ending sub-state and to chest and head. *)
Lemma poseStep_substate (playheadTicks : number) (st : State) :
  let st' := fst (poseStep_ playheadTicks st) in
  let pose := snd (poseStep_ playheadTicks st) in
  (gtb (playheadTicks - lastEndTick st) 0 = false ->
   isEnd st' = false /\ lastRot st' = None)
  /\ (gtb (playheadTicks - lastEndTick st) 0 = true -> isEnd st = true ->
      isEnd st' = true /\ lastRot st' = lastRot st)
  /\ (isEnd st' = true ->
      gtb (playheadTicks - lastEndTick st) 0 = true
      /\ (isEnd st = false -> lastRot st' = None)
      /\ pose = JSMap.set "head" (0, 0, 0) (JSMap.set "chest" (0, 0, 0) (basePose)))
  /\ (exists x z, pose = JSMap.set "head" (x, 0, z * 4)
                           (JSMap.set "chest" (0, 0, z) basePose)).
Proof.
  cbv zeta. unfold poseStep.
  destruct (gtb (playheadTicks - lastEndTick st) 0) eqn:P.
  - destruct (isEnd st) eqn:E; cbn [negb].
    + cbv zeta. cbn [fst snd isEnd lastRot set_ending].
      repeat split; try congruence; eauto.
    + cbv zeta. destruct (_ =? 1) eqn:T; cbn [fst snd isEnd lastRot set_ending].
      * repeat split; try congruence; eauto.
      * repeat split; try congruence; eauto.
  - destruct (_ <? 1); cbv zeta; cbn [fst snd isEnd lastRot set_ending];
      repeat split; try congruence; eauto.
Qed.

(** The pose map after [expressionStep]: the closing gesture replaces the
    head's rotation when its weight is positive. *)
Lemma expressionStep_pose (playheadTicks : number) (st : State) (pose0 : JSMap.t Vec3) :
  pose (expressionStep playheadTicks st pose0)
  = if gtb (endAppendOf playheadTicks st) 0
    then JSMap.set "head" (0, 0, degToRad (-5 * endAppendOf playheadTicks st)) pose0
    else pose0.
Proof. reflexivity. Qed.

(** The variables the phrase loop and the pruning leave to [poseStep]. *)
Lemma render_substate_before frame st st' out :
  render_ frame st = (st', inr out) ->
  exists s1 pose,
    poseStep_ (playheadTicks frame) s1 = (st', pose)
    /\ out = expressionStep (playheadTicks frame) st' pose
    /\ isEnd s1 = isEnd st /\ lastRot s1 = lastRot st
    /\ lastEndTick s1 = lastEndTick st'.
Proof.
  intros R.
  destruct (render_completes secondToTick frequencyToNoteNumber Math_sin Math_cos
              _ _ _ _ R) as [s1 [pose [U [P O]]]].
  exists s1, pose. split; [exact P|]. split; [exact O|].
  destruct (updatePhrases_appends secondToTick frequencyToNoteNumber
              (engineManifests frame) (phrases frame) (pruneStep (phrases frame) st))
    as [new [_ [_ [C [D _]]]]].
  rewrite U in C, D. cbn [fst] in C, D.
  destruct (pruneStep_shape (phrases frame) st) as [_ [_ [C' D']]].
  pose proof (poseStep_frameMap Math_sin Math_cos (playheadTicks frame) s1) as [_ [L _]].
  rewrite P in L. cbn [fst] in L. repeat split; congruence.
Qed.

(** X11: the ending sub-state over a frame that completes.  When the
    playhead is not past [lastEndTick] (also when either is [NaN]) the frame
    leaves ENDED and drops the captured rotation; ENDED is kept while the
    playhead stays past it; ENDED is only ever held past [lastEndTick], with
    the chest at rest and, unless the closing gesture tilts it, the head too;
    and a state that is never both ENDED and holding a captured rotation
    stays so. *)
Theorem render_ending_substate (frame : Frame) (st st' : State) (out : Output) :
  render_ frame st = (st', inr out) ->
  let past := gtb (playheadTicks frame - lastEndTick st') 0 in
  (past = false -> isEnd st' = false /\ lastRot st' = None)
  /\ (past = true -> isEnd st = true -> isEnd st' = true)
  /\ (isEnd st' = true ->
      past = true
      /\ JSMap.get "chest" (pose out) = Some (0, 0, 0)
      /\ (gtb (endAppendOf (playheadTicks frame) st') 0 = false ->
          JSMap.get "head" (pose out) = Some (0, 0, 0)))
  /\ ((isEnd st = true -> lastRot st = None) ->
      (isEnd st' = true -> lastRot st' = None)).
Proof.
  intros R. cbv zeta.
  destruct (render_substate_before _ _ _ _ R) as [s1 [pose [P [-> [E [L T]]]]]].
  pose proof (poseStep_substate (playheadTicks frame) s1) as S. cbv zeta in S.
  rewrite P in S. cbn [fst snd] in S. rewrite T, E, L in S.
  destruct S as [S1 [S2 [S3 _]]].
  split; [exact S1|]. split; [intros H1 H2; exact (proj1 (S2 H1 H2))|]. split.
  - intros H. destruct (S3 H) as [Hp [_ ->]]. split; [exact Hp|].
    rewrite expressionStep_pose. split.
    + destruct (gtb (endAppendOf _ _) 0); [rewrite get_set_other by discriminate|];
        reflexivity.
    + intros G. rewrite G. reflexivity.
  - intros I H. destruct (S3 H) as [Hp [N _]].
    destruct (isEnd st) eqn:Q; [|now apply N].
    destruct (S2 Hp eq_refl) as [_ ->]. now apply I.
Qed.


(** The weight of a vowel shape in the map [makeWeight] builds. *)
Lemma makeWeight_get (target : string) (w : number) (k : string) :
  In k vowelShapes ->
  JSMap.get k (makeWeight target w) = Some (if String.eqb k target then w else 0).
Proof.
  intros Hk. unfold makeWeight, JSMap.has. cbn -[String.eqb].
  case_eqb "aa"%string target; [subst|];
  [|case_eqb "ih"%string target; [subst|];
  [|case_eqb "ou"%string target; [subst|];
  [|case_eqb "ee"%string target; [subst|];
  [|case_eqb "oh"%string target; [subst|]]]]];
  unfold vowelShapes in Hk; simpl in Hk; decompose [or] Hk; subst;
    try contradiction; try reflexivity;
    cbn -[String.eqb];
    repeat match goal with
           | H : ?a <> ?b |- context [String.eqb ?a ?b] =>
               rewrite (proj2 (String.eqb_neq a b) H)
           end; reflexivity.
Qed.

Lemma makeWeight_no_other_key (target : string) (w : number) (k : string) :
  ~ In k vowelShapes -> JSMap.get k (makeWeight target w) = None.
Proof.
  intros Hk. destruct (JSMap.get k (makeWeight target w)) as [v|] eqn:G; [|reflexivity].
  exfalso. apply Hk.
  assert (H : JSMap.has k (makeWeight target w) = true) by (unfold JSMap.has; now rewrite G).
  apply has_In_keys in H. unfold JSMap.keys in H. apply in_map_iff in H.
  destruct H as [[k0 v0] [E H]]. cbn in E. subst k0.
  now destruct (makeWeight_entries _ _ _ _ H).
Qed.

Lemma expressionStep_weights (playheadTicks : number) (st : State) (pose0 : JSMap.t Vec3) :
  weights (expressionStep playheadTicks st pose0)
  = if negb (existsb (fun value => gtb value 0)
                     (JSMap.values (weightsBeforeNeutral playheadTicks st)))
    then weightsBeforeNeutral playheadTicks st ++ [("neutral"%string, 1)]
    else weightsBeforeNeutral playheadTicks st.
Proof.
  unfold expressionStep, weightsBeforeNeutral, endAppendOf. cbv zeta. cbn [weights].
  cbn [config.motion.high.enable config.motion.long.enable].
  match goal with
  | |- context [if ?c then true else false] =>
      replace (if c then true else false) with c by (now destruct c)
  end.
  destruct (negb _); [|reflexivity].
  apply set_absent.
  rewrite !get_set_other by discriminate.
  apply makeWeight_no_other_key. unfold vowelShapes. simpl.
  intros H. decompose [or] H; try discriminate; contradiction.
Qed.

(** X12: the neutral face.  The weight map of a completed frame carries
    "neutral", with weight 1 and as its last entry, exactly when no other
    weight is positive; so every frame pushes at least one positive weight. *)
Theorem neutral_face (frame : Frame) (st st' : State) (out : Output) :
  render_ frame st = (st', inr out) ->
  existsb (fun value => gtb value 0) (JSMap.values (weights out)) = true
  /\ (JSMap.get "neutral" (weights out) = Some 1
      \/ JSMap.get "neutral" (weights out) = None)
  /\ (JSMap.get "neutral" (weights out) = Some 1 <->
      forall k w, In (k, w) (weights out) -> k <> "neutral"%string -> gtb w 0 = false).
Proof.
  intros R.
  destruct (render_substate_before _ _ _ _ R) as [s1 [pose [_ [-> _]]]].
  rewrite expressionStep_weights.
  set (m := weightsBeforeNeutral (playheadTicks frame) st').
  assert (N : JSMap.get "neutral" m = None).
  { unfold m, weightsBeforeNeutral. cbv zeta.
    rewrite !get_set_other by discriminate.
    apply makeWeight_no_other_key. unfold vowelShapes. simpl.
    intros H. decompose [or] H; try discriminate; contradiction. }
  destruct (existsb (fun value => gtb value 0) (JSMap.values m)) eqn:X; cbn [negb].
  - split; [exact X|]. split; [now right|]. rewrite N. split; [discriminate|].
    intros H. exfalso. apply existsb_exists in X. destruct X as [w [Hw Gw]].
    unfold JSMap.values in Hw. apply in_map_iff in Hw. destruct Hw as [[k w'] [E Hk]].
    cbn in E. subst w'. rewrite (H k w Hk) in Gw; [discriminate|].
    intros ->. apply In_has in Hk. unfold JSMap.has in Hk. now rewrite N in Hk.
  - assert (G : JSMap.get "neutral" (m ++ [("neutral"%string, 1)]) = Some 1).
    { rewrite get_app, N. reflexivity. }
    rewrite G. split.
    + rewrite values_app, existsb_app, X. reflexivity.
    + split; [now left|]. split; [|reflexivity]. intros _ k w Hin Hk.
      apply in_app_or in Hin. destruct Hin as [Hin|[E|[]]].
      * apply not_true_is_false. intros Gw.
        assert (Y : existsb (fun value => gtb value 0) (JSMap.values m) = true).
        { apply existsb_exists. exists w. split; [|exact Gw].
          unfold JSMap.values. change w with (snd (k, w)). now apply in_map. }
        congruence.
      * injection E as <- _. congruence.
Qed.

(** X13: the mouth.  In a completed frame each of the five vowel shapes has
    an entry; it is 0 for all of them when the frame ends in the ENDED
    state, and otherwise 0 for all but the shape the active section names,
    which gets that section's weight. *)
Theorem mouth_weights (frame : Frame) (st st' : State) (out : Output) :
  render_ frame st = (st', inr out) ->
  forall k, In k vowelShapes ->
    JSMap.get k (weights out)
    = Some (if negb (isEnd st')
               && String.eqb k (expression (searchSection (frameMap st')
                                                          (playheadTicks frame)))
            then weight (searchSection (frameMap st') (playheadTicks frame))
            else 0).
Proof.
  intros R k Hk.
  destruct (render_substate_before _ _ _ _ R) as [s1 [pose [_ [-> _]]]].
  rewrite expressionStep_weights.
  assert (G : JSMap.get k (weightsBeforeNeutral (playheadTicks frame) st')
              = Some (if negb (isEnd st')
                         && String.eqb k (expression (searchSection (frameMap st')
                                                        (playheadTicks frame)))
                      then weight (searchSection (frameMap st') (playheadTicks frame))
                      else 0)).
  { unfold weightsBeforeNeutral. cbv zeta.
    assert (K1 : config.motion.last.expression <> k).
    { intros <-. unfold vowelShapes in Hk. simpl in Hk.
      decompose [or] Hk; try discriminate; contradiction. }
    assert (K2 : config.motion.long.expression <> k).
    { intros <-. unfold vowelShapes in Hk. simpl in Hk.
      decompose [or] Hk; try discriminate; contradiction. }
    rewrite !get_set_other by assumption. rewrite (makeWeight_get _ _ _ Hk).
    destruct (isEnd st'); cbn [negb andb]; [|reflexivity].
    replace (String.eqb k EXP_CLOSE) with false; [reflexivity|].
    symmetry. apply String.eqb_neq. intros ->. unfold vowelShapes in Hk. simpl in Hk.
    decompose [or] Hk; try discriminate; contradiction. }
  destruct (negb (existsb _ _)); [|exact G]. now rewrite get_app, G.
Qed.

(** X14: the pose map of a completed frame has the thirteen bones of
    [boneNames], in that order; every bone but chest and head has the fixed
    rotation of [basePose]; the chest turns about its third axis only, and
    the head never about its second. *)
Theorem pose_bones (frame : Frame) (st st' : State) (out : Output) :
  render_ frame st = (st', inr out) ->
  JSMap.keys (pose out) = boneNames
  /\ (forall k, k <> "chest"%string -> k <> "head"%string ->
                JSMap.get k (pose out) = JSMap.get k basePose)
  /\ (exists z, JSMap.get "chest" (pose out) = Some (0, 0, z))
  /\ (exists x z, JSMap.get "head" (pose out) = Some (x, 0, z)).
Proof.
  intros R.
  destruct (render_substate_before _ _ _ _ R) as [s1 [pose0 [P [-> _]]]].
  pose proof (poseStep_substate (playheadTicks frame) s1) as S. cbv zeta in S.
  rewrite P in S. cbn [snd] in S. destruct S as [_ [_ [_ [x [z ->]]]]].
  rewrite expressionStep_pose.
  destruct (gtb (endAppendOf _ _) 0).
  - split; [reflexivity|]. split; [|split].
    + intros k H1 H2. now rewrite !get_set_other by congruence.
    + exists z. now rewrite !get_set_other by discriminate.
    + eexists _, _. reflexivity.
  - split; [reflexivity|]. split; [|split].
    + intros k H1 H2. now rewrite !get_set_other by congruence.
    + exists z. now rewrite !get_set_other by discriminate.
    + eexists _, _. reflexivity.
Qed.

(** A loop over phrases that are all cached, with their engines known,
    caches nothing and does not throw. *)
Lemma updatePhrases_stable engineManifests :
  forall phrases st,
    (forall k phrase, In (k, phrase) phrases -> isReady phrase = true ->
                      JSMap.has k (frameMap st) = true
                      /\ frameRateOf engineManifests phrase <> None) ->
    snd (updatePhrases_ engineManifests phrases st) = None
    /\ frameMap (fst (updatePhrases_ engineManifests phrases st)) = frameMap st
    /\ lastEndTick (fst (updatePhrases_ engineManifests phrases st)) = lastEndTick st.
Proof.
  intros phrases. induction phrases as [|[k p] rest IH]; intros st H; [auto|].
  simpl.
  pose proof (updatePhrase_outcome secondToTick frequencyToNoteNumber
                engineManifests k p st) as O. cbv zeta in O.
  destruct O as [[R E]|[[R [F E]]|[[R [F [Hc E]]]|[[R [F [Hc [P E]]]]|[R [F [Hc [P [f E]]]]]]]]];
    rewrite E.
  - apply IH. intros k0 p0 Hin. apply H. now right.
  - exfalso. destruct (H k p (or_introl eq_refl) R) as [_ X]. contradiction.
  - destruct (IH (set_lastTpqn (tpqn p) st)) as [A [B C]].
    { intros k0 p0 Hin. apply H. now right. }
    auto.
  - exfalso. destruct (H k p (or_introl eq_refl) R) as [X _]. congruence.
  - exfalso. destruct (H k p (or_introl eq_refl) R) as [X _]. congruence.
Qed.

(** A loop that did not throw found a manifest for every ready phrase. *)
Lemma updatePhrases_manifests engineManifests :
  forall phrases st,
    snd (updatePhrases_ engineManifests phrases st) = None ->
    forall k phrase, In (k, phrase) phrases -> isReady phrase = true ->
                     frameRateOf engineManifests phrase <> None.
Proof.
  intros phrases. induction phrases as [|[k0 p0] rest IH]; intros st N k p Hin R;
    [destruct Hin|].
  simpl in N.
  pose proof (updatePhrase_outcome secondToTick frequencyToNoteNumber
                engineManifests k0 p0 st) as O. cbv zeta in O.
  destruct O as [[R0 E]|[[R0 [F E]]|[[R0 [F [H E]]]|[[R0 [F [H [P E]]]]|[R0 [F [H [P [f E]]]]]]]]];
    rewrite E in N; try discriminate N;
    (destruct Hin as [Q|Hin]; [injection Q as <- <-; congruence|now apply (IH _ N k p)]).
Qed.

(** X15: once a frame has completed, a further frame over the same store
    and context, at any playhead, completes too and changes neither the
    cache nor [lastEndTick]. *)
Theorem render_again_is_stable (frame : Frame) (st st' : State) (out : Output)
  (ticks : number) :
  render_ frame st = (st', inr out) ->
  (exists out', snd (render_ (withPlayhead ticks frame) st') = inr out')
  /\ frameMap (fst (render_ (withPlayhead ticks frame) st')) = frameMap st'
  /\ lastEndTick (fst (render_ (withPlayhead ticks frame) st')) = lastEndTick st'.
Proof.
  intros R.
  pose proof (render_completes_context secondToTick frequencyToNoteNumber
                Math_sin Math_cos _ _ _ _ R) as C.
  destruct (render_completes secondToTick frequencyToNoteNumber Math_sin Math_cos
              _ _ _ _ R) as [s1 [pose [U [P _]]]].
  pose proof (render_cache secondToTick frequencyToNoteNumber Math_sin Math_cos
                frame st C) as [Fm _].
  rewrite R in Fm. cbn [fst] in Fm.
  assert (K : forall k, JSMap.has k (frameMap st') = true ->
                        JSMap.has k (phrases frame) = true).
  { intros k H.
    destruct (updatePhrases_appends secondToTick frequencyToNoteNumber
                (engineManifests frame) (phrases frame)
                (pruneStep (phrases frame) st)) as [new [A [_ [_ [_ [Kn _]]]]]].
    destruct (pruneStep_shape (phrases frame) st) as [Pr _].
    rewrite Fm, A, Pr, has_app in H. apply orb_true_iff in H. destruct H as [H|H].
    - rewrite (has_filter_keys (fun k => JSMap.has k (phrases frame))) in H.
      apply andb_true_iff in H. tauto.
    - apply has_In_keys in H. destruct (Kn k H) as [_ [q [Hq _]]].
      eapply In_has; eassumption. }
  assert (D : existsb (fun k => negb (JSMap.has k (phrases frame)))
                      (JSMap.keys (frameMap st')) = false).
  { apply not_true_is_false. intros X. apply existsb_exists in X.
    destruct X as [k [Hk Hn]]. apply has_In_keys in Hk. rewrite (K k Hk) in Hn.
    discriminate. }
  assert (S : forall k phrase, In (k, phrase) (phrases frame) -> isReady phrase = true ->
                JSMap.has k (frameMap st') = true
                /\ frameRateOf (engineManifests frame) phrase <> None).
  { intros k p Hin Rp. split.
    - rewrite Fm.
      apply (updatePhrases_complete secondToTick frequencyToNoteNumber
               (engineManifests frame) (phrases frame) (pruneStep (phrases frame) st))
        with (phrase := p); auto. now rewrite U.
    - apply (updatePhrases_manifests (engineManifests frame) (phrases frame)
               (pruneStep (phrases frame) st)) with (k := k); auto. now rewrite U. }
  destruct (updatePhrases_stable (engineManifests frame) (phrases frame) st' S)
    as [N [A B]].
  assert (C' : contextReady (withPlayhead ticks frame) = true) by exact C.
  pose proof (render_cache secondToTick frequencyToNoteNumber Math_sin Math_cos
                (withPlayhead ticks frame) st' C') as [Fm' Le'].
  cbn [phrases engineManifests withPlayhead] in Fm', Le'.
  rewrite (pruneStep_nothing_dropped _ _ D) in Fm', Le'.
  split; [|split; congruence].
  unfold render. change (contextReady (withPlayhead ticks frame) = true) in C'.
  unfold contextReady in C'.
  repeat (apply andb_true_iff in C'; destruct C' as [C' ?]).
  apply negb_true_iff in C'.
  repeat match goal with H : negb _ = true |- _ => apply negb_true_iff in H end.
  repeat match goal with H : _ = _ |- _ => rewrite H end. cbn [negb].
  cbn [phrases engineManifests withPlayhead].
  rewrite (pruneStep_nothing_dropped _ _ D).
  destruct (updatePhrases_ (engineManifests frame) (phrases frame) st') as [s2 [e|]];
    [discriminate N|].
  destruct (poseStep_ _ s2). eexists. reflexivity.
Qed.

(** X16: a frame of the ending decay before [t] reaches 1 (the component
    is not ENDED and the playhead is past [lastEndTick]).  The frame holds a
    captured rotation afterwards, the one it found if there was one; chest
    and head are that rotation scaled by [1 - cosEase t], the head's third
    component four times the chest's; and the component is still not
    ENDED. *)
Theorem ending_decay_frame (playheadTicks : number) (st : State) :
  isEnd st = false ->
  gtb (playheadTicks - lastEndTick st) 0 = true ->
  (Math_min 1 ((playheadTicks - lastEndTick st) / lastTpqn st) =? 1) = false ->
  let t := Math_min 1 ((playheadTicks - lastEndTick st) / lastTpqn st) in
  exists r,
    lastRot (fst (poseStep_ playheadTicks st)) = Some r
    /\ (forall r0, lastRot st = Some r0 -> r = r0)
    /\ isEnd (fst (poseStep_ playheadTicks st)) = false
    /\ JSMap.get "chest" (snd (poseStep_ playheadTicks st))
       = Some (0, 0, snd r * (1 - cosEase Math_cos t))
    /\ JSMap.get "head" (snd (poseStep_ playheadTicks st))
       = Some (fst (fst r) * (1 - cosEase Math_cos t), 0,
               snd r * (1 - cosEase Math_cos t) * 4).
Proof.
  intros E P T. cbv zeta. unfold poseStep. rewrite P, E. cbn [negb]. cbv zeta.
  rewrite T. cbn [fst snd isEnd lastRot set_ending].
  eexists. split; [reflexivity|]. split.
  - intros r0 H. rewrite H. reflexivity.
  - repeat split.
Qed.

End BlenderOutput.

(* ================================================================== *)
(** ** The further properties at concrete frames *)

(** X3 at the first frame over [Sample.store]: the phrase that starts at
    second 0 is not cached, the other two are, each once. *)
Lemma render_cache_within_store_witness :
  JSMap.keys (frameMap Sample.storeState) = ["p1"; "p2"]%string
  /\ JSMap.has "p1" (phrases Sample.storeFrame) = true
  /\ NoDup (JSMap.keys (frameMap Sample.storeState)).
Proof.
  pose proof (render_cache_within_store
                Sample.secondToTick Sample.frequencyToNoteNumber
                Sample.Math_sin Sample.Math_cos
                Sample.storeFrame initialState eq_refl) as [K N].
  split; [reflexivity|]. split.
  - exact (proj1 (K "p1"%string eq_refl)).
  - apply N. constructor.
Defined.

(** X4 at the same frame. *)
Lemma render_cache_exact_witness :
  JSMap.has "p2" (frameMap Sample.storeState) = true
  /\ JSMap.has "p0" (frameMap Sample.storeState) = false.
Proof.
  pose proof (render_cache_exact
                Sample.secondToTick Sample.frequencyToNoteNumber
                Sample.Math_sin Sample.Math_cos
                Sample.storeFrame initialState Sample.storeState Sample.storeOutput
                eq_refl) as X.
  split.
  - apply (X "p2"%string). split; [reflexivity|]. right.
    exists Sample.secondVerse. split; [|reflexivity]. simpl. auto.
  - reflexivity.
Defined.

(** X5 at a second frame over the same store: nothing is dropped, nothing
    is appended, [lastEndTick] stays 6784. *)
Lemma render_without_drop_witness :
  exists new,
    frameMap (fst (Sample.render (Sample.frameOf Sample.store 7000) Sample.storeState))
    = frameMap Sample.storeState ++ new
    /\ lastEndTick (fst (Sample.render (Sample.frameOf Sample.store 7000)
                                       Sample.storeState))
       = fold_left Math_max (flat_map voicedEndTicks (JSMap.values new)) 6784.
Proof.
  destruct (render_without_drop
              Sample.secondToTick Sample.frequencyToNoteNumber
              Sample.Math_sin Sample.Math_cos
              (Sample.frameOf Sample.store 7000) Sample.storeState eq_refl eq_refl)
    as [new [A [B _]]].
  exists new. split; [exact A|exact B].
Defined.

(** X6 after the first frame over [Sample.store]: [cleanUp] and a frame with
    an empty store leave [lastEndTick] at 6784, where a fresh component has
    0. *)
Lemma cleanUp_keeps_lastEndTick_witness :
  frameMap (cleanUp Sample.storeState) = []
  /\ lastEndTick (fst (Sample.render (Sample.emptyFrame 0) (cleanUp Sample.storeState)))
     = 6784
  /\ lastEndTick (fst (Sample.render (Sample.emptyFrame 0) initialState)) = 0.
Proof.
  pose proof (cleanUp_keeps_lastEndTick
                Sample.secondToTick Sample.frequencyToNoteNumber
                Sample.Math_sin Sample.Math_cos
                (Sample.emptyFrame 0) Sample.storeState eq_refl)
    as [A [_ [_ [_ [_ [_ Z]]]]]].
  split; [exact A|]. split; [|reflexivity].
  exact (Z eq_refl).
Defined.

(** X7 at the first frame over [Sample.store]: [lastTpqn] is the 960 of
    "p2", the last ready phrase; the 240 of the phrase that starts at second
    0 is never taken. *)
Lemma render_lastTpqn_witness : lastTpqn Sample.storeState = 960.
Proof.
  exact (render_lastTpqn
           Sample.secondToTick Sample.frequencyToNoteNumber
           Sample.Math_sin Sample.Math_cos
           Sample.storeFrame initialState Sample.storeState Sample.storeOutput eq_refl).
Defined.

(** X8 at the timeline of "p1": the "a" section ends and the "pau" section
    starts at tick 1164.8, and the timeline spans ticks 960 to 1267.2 like
    its sections. *)
Lemma cached_timeline_shape_witness :
  frame_startFrame Sample.cachedTimeline = 0
  /\ (forall i s s',
        nth_error (sections Sample.cachedTimeline) i = Some s ->
        nth_error (sections Sample.cachedTimeline) (S i) = Some s' ->
        endTick s = startTick s')
  /\ map endTick (sections Sample.cachedTimeline) = [1164.8; 1267.2]
  /\ frame_endTick Sample.cachedTimeline = 1267.2.
Proof.
  pose proof (cached_timeline_shape
                Sample.secondToTick Sample.frequencyToNoteNumber
                [("engine"%string, 93.75)] "p1"%string Sample.voicedThenSilent
                initialState Sample.cachedTimeline eq_refl eq_refl)
    as [_ [B [Z _]]].
  split; [exact Z|]. split; [exact B|]. split; reflexivity.
Defined.

(** X11 at the frame 480 ticks past the content: the component is ENDED and
    at rest; one more frame back at tick 0 leaves ENDED. *)
Lemma render_ending_substate_witness :
  isEnd Sample.endedState = true
  /\ JSMap.get "chest" (pose Sample.endedOutput) = Some (0, 0, 0)
  /\ JSMap.get "head" (pose Sample.endedOutput) = Some (0, 0, 0)
  /\ isEnd (fst (Sample.render (Sample.emptyFrame 0) Sample.endedState)) = false.
Proof.
  pose proof (render_ending_substate
                Sample.secondToTick Sample.frequencyToNoteNumber
                Sample.Math_sin Sample.Math_cos
                (Sample.emptyFrame 480) initialState
                Sample.endedState Sample.endedOutput eq_refl) as [_ [_ [E _]]].
  cbv zeta in E. destruct (E eq_refl) as [_ [C H]].
  split; [reflexivity|]. split; [exact C|]. split; [exact (H eq_refl)|].
  reflexivity.
Defined.

(** X12 at two frames: inside the "o" of "p2" the mouth shape is positive
    and there is no neutral entry; with nothing cached the neutral face is
    the one positive weight. *)
Lemma neutral_face_witness :
  JSMap.get "neutral" (weights Sample.storeOutput) = None
  /\ JSMap.get "neutral" (weights Sample.endedOutput) = Some 1
  /\ existsb (fun value => gtb value 0) (JSMap.values (weights Sample.endedOutput)) = true.
Proof.
  pose proof (neutral_face
                Sample.secondToTick Sample.frequencyToNoteNumber
                Sample.Math_sin Sample.Math_cos
                (Sample.emptyFrame 480) initialState
                Sample.endedState Sample.endedOutput eq_refl) as [P _].
  split; [reflexivity|]. split; [reflexivity|]. exact P.
Defined.

(** X13 inside the "o" of "p2": oh has weight 1 and aa has 0. *)
Lemma mouth_weights_witness :
  JSMap.get "oh" (weights Sample.storeOutput) = Some 1
  /\ JSMap.get "aa" (weights Sample.storeOutput) = Some 0.
Proof.
  pose proof (mouth_weights
                Sample.secondToTick Sample.frequencyToNoteNumber
                Sample.Math_sin Sample.Math_cos
                Sample.storeFrame initialState Sample.storeState Sample.storeOutput
                eq_refl) as M.
  split.
  - apply (M "oh"%string). unfold vowelShapes. simpl. auto 10.
  - apply (M "aa"%string). unfold vowelShapes. simpl. auto 10.
Defined.

(** X14 at the first frame over [Sample.store]. *)
Lemma pose_bones_witness :
  JSMap.keys (pose Sample.storeOutput) = boneNames
  /\ JSMap.get "hips" (pose Sample.storeOutput) = Some (0, degToRad (-20), 0).
Proof.
  pose proof (pose_bones
                Sample.secondToTick Sample.frequencyToNoteNumber
                Sample.Math_sin Sample.Math_cos
                Sample.storeFrame initialState Sample.storeState Sample.storeOutput
                eq_refl) as [K [B _]].
  split; [exact K|]. rewrite B by discriminate. reflexivity.
Defined.

(** X15 after the first frame over [Sample.store]: a frame at tick 9000
    completes and leaves the two timelines and [lastEndTick] 6784. *)
Lemma render_again_is_stable_witness :
  frameMap (fst (Sample.render (withPlayhead 9000 Sample.storeFrame) Sample.storeState))
  = frameMap Sample.storeState
  /\ lastEndTick (fst (Sample.render (withPlayhead 9000 Sample.storeFrame)
                                     Sample.storeState)) = 6784.
Proof.
  pose proof (render_again_is_stable
                Sample.secondToTick Sample.frequencyToNoteNumber
                Sample.Math_sin Sample.Math_cos
                Sample.storeFrame initialState Sample.storeState Sample.storeOutput
                9000 eq_refl) as [_ [A B]].
  split; [exact A|exact B].
Defined.

(** X16 at the frame after the capture: at tick 300 the rotation captured at
    tick 240 is still the one held. *)
Lemma ending_decay_frame_witness :
  lastRot Sample.decayingState = Some Sample.capturedRot
  /\ lastRot (fst (poseStep Sample.Math_sin Sample.Math_cos 300 Sample.decayingState))
     = Some Sample.capturedRot.
Proof.
  destruct (ending_decay_frame Sample.Math_sin Sample.Math_cos 300 Sample.decayingState
              eq_refl eq_refl eq_refl) as [r [L [K _]]].
  split; [reflexivity|]. rewrite L. f_equal. apply K. reflexivity.
Defined.
